(** * MFS directory overlay (mfs/dir.go): a shallow embedding

    The Go type [Directory] of package [mfs] is an in-memory overlay over an
    immutable UnixFS directory node.  This development embeds the methods of
    [mfs/dir.go] as functions over explicit state:

    - the overlay itself ([Directory]: name, context, backing [unixfsDir],
      [entriesCache]) is passed and returned, because every method mutates
      its receiver in place;
    - the shared [ipld.DAGService] and the log of lock and call events live
      in a [World] threaded through every call;
    - the [parent] back-pointer is the chain of ancestors [Parent], ending
      in the [Root].

    Go's [(T, error)] results are [result T]; a method that only returns
    [error] yields [option error] ([None] is [nil]). *)

From stdpp Require Import gmap strings list fin_maps.

Open Scope string_scope.
#[local] Set Warnings "-register-all".

(** ** Errors *)

Inductive error :=
| ErrNotYetImplemented   (* mfs.ErrNotYetImplemented *)
| ErrInvalidChild        (* mfs.ErrInvalidChild *)
| ErrDirExists           (* mfs.ErrDirExists *)
| ErrExist               (* os.ErrExist *)
| ErrNotExist            (* os.ErrNotExist *)
| ErrNotProtobuf         (* dag.ErrNotProtobuf *)
| ErrUnrecognizedNode    (* "unrecognized node type in cache node" *)
| ErrNotUnixfs           (* ft.FSNodeFromBytes failed to decode *)
| ErrNotADir             (* uio.ErrNotADir *)
| ErrCanceled            (* context.Canceled *)
| ErrRootName.           (* Root: child name is not the top directory *)

Inductive result (A : Type) :=
| Ok (a : A)
| Err (e : error).
Arguments Ok {A} a.
Arguments Err {A} e.

(** ** context.Context

    Modelled from the spec: the context handed to every store operation
    (section 5, Cancellation): a cancelled context makes store operations
    fail.  [ctxErr] is Go's [ctx.Err()]. *)
Inductive Context := Background | Cancelled.

Definition ctxErr (c : Context) : option error :=
  match c with Background => None | Cancelled => Some ErrCanceled end.

(** ** DAG nodes (packages ipld, dag, ft) *)

(** [cid.Builder] is opaque to the overlay; builders are told apart by a tag. *)
Definition CidBuilder := nat.

Module ft.

(** The UnixFS kinds of the glossary; [TUnknown] stands for any other value
    of the enumeration field. *)
Inductive DataType :=
| TRaw | TDirectory | TFile | TMetadata | TSymlink | THAMTShard
| TUnknown (code : N).

(** Modelled from the spec: [ft.FSNode], the decoded UnixFS metadata of a
    protobuf node (kind, mode, modification time, file size). *)
Record FSNode := mkFSNode {
  Type_ : DataType;
  Mode : N;
  ModTime : Z;
  FileSize : N }.

End ft.

(** Modelled from the spec: [ipld.Node] with its two recognised dynamic types
    [*dag.ProtoNode] and [*dag.RawNode]; [OtherNode] is any other
    implementation of the interface.  A protobuf node carries its data field
    ([None] when the bytes do not decode as UnixFS), its named links and its
    CID builder.  Nodes are content addressed, so a link is modelled by the
    node it points to and the CID of a node by the node itself. *)
Inductive Node :=
| ProtoNode (data : option ft.FSNode) (links : gmap string Node)
            (builder : CidBuilder)
| RawNode (bytes : string)
| OtherNode (tag : N).

Definition Cid := Node.
Definition Node_Cid (nd : Node) : Cid := nd.

(** [ft.FSNodeFromBytes(nd.Data())] *)
Definition FSNodeFromBytes (data : option ft.FSNode) : result ft.FSNode :=
  match data with
  | Some fsn => Ok fsn
  | None => Err ErrNotUnixfs
  end.

(** ** The backing UnixFS directory (package uio) *)

Module uio.

(** Modelled from the spec: [uio.Directory] (section 6, UnixfsDir
    contract), an editable view over one directory node: its links, the
    sharding limits, the CID builder and the stat fields. *)
Record Directory := mkDirectory {
  links : gmap string Node;
  maxLinks : N;
  maxHAMTFanout : N;
  cidBuilder : CidBuilder;
  mode : N;
  modTime : Z;
  sharded : bool }.

Definition GetMaxLinks (u : Directory) : N := maxLinks u.
Definition GetMaxHAMTFanout (u : Directory) : N := maxHAMTFanout u.
Definition GetCidBuilder (u : Directory) : CidBuilder := cidBuilder u.

Definition SetMaxLinks (n : N) (u : Directory) : Directory :=
  mkDirectory (links u) n (maxHAMTFanout u) (cidBuilder u) (mode u)
              (modTime u) (sharded u).

Definition SetMaxHAMTFanout (n : N) (u : Directory) : Directory :=
  mkDirectory (links u) (maxLinks u) n (cidBuilder u) (mode u)
              (modTime u) (sharded u).

Definition SetCidBuilder (b : CidBuilder) (u : Directory) : Directory :=
  mkDirectory (links u) (maxLinks u) (maxHAMTFanout u) b (mode u)
              (modTime u) (sharded u).

Definition set_links (l : gmap string Node) (u : Directory) : Directory :=
  mkDirectory l (maxLinks u) (maxHAMTFanout u) (cidBuilder u) (mode u)
              (modTime u) (sharded u).

(** Modelled from the spec: [uio.NewDirectory] with the options
    [WithMaxLinks], [WithMaxHAMTFanout], [WithStat], [WithCidBuilder]:
    an empty directory carrying the given settings. *)
Definition NewDirectory (maxl fanout : N) (md : N) (mt : Z)
    (b : CidBuilder) : result Directory :=
  Ok (mkDirectory ∅ maxl fanout b md mt false).

(** Modelled from the spec: [uio.NewDirectoryFromNode].  Only a protobuf
    node of kind Directory or HAMTShard is a directory.  The links, the
    stat fields and the builder come from the node; the sharding limits
    are not persisted in the DAG and start at their zero value. *)
Definition NewDirectoryFromNode (nd : Node) : result Directory :=
  match nd with
  | ProtoNode data lks b =>
      match FSNodeFromBytes data with
      | Err e => Err e
      | Ok fsn =>
          match ft.Type_ fsn with
          | ft.TDirectory =>
              Ok (mkDirectory lks 0 0 b (ft.Mode fsn) (ft.ModTime fsn) false)
          | ft.THAMTShard =>
              Ok (mkDirectory lks 0 0 b (ft.Mode fsn) (ft.ModTime fsn) true)
          | _ => Err ErrNotADir
          end
      end
  | _ => Err ErrNotProtobuf
  end.

(** Modelled from the spec: [add_child] replaces any existing entry under
    the same name; a cancelled context makes the operation fail. *)
Definition AddChild (ctx : Context) (name : string) (nd : Node)
    (u : Directory) : option error * Directory :=
  match ctxErr ctx with
  | Some e => (Some e, u)
  | None => (None, set_links (<[name := nd]> (links u)) u)
  end.

(** Modelled from the spec: [remove_child] drops the link; the absence of
    the name is not an error (section 4.1, unlink; open question (a)). *)
Definition RemoveChild (ctx : Context) (name : string)
    (u : Directory) : option error * Directory :=
  match ctxErr ctx with
  | Some e => (Some e, u)
  | None => (None, set_links (delete name (links u)) u)
  end.

(** Modelled from the spec: [find] resolves a name to its node, and fails
    NotFound when the name is not linked. *)
Definition Find (ctx : Context) (name : string)
    (u : Directory) : result Node :=
  match ctxErr ctx with
  | Some e => Err e
  | None =>
      match links u !! name with
      | Some nd => Ok nd
      | None => Err ErrNotExist
      end
  end.

(** Modelled from the spec: [get_node] serialises the current state of
    the directory as a protobuf node. *)
Definition GetNode (u : Directory) : result Node :=
  Ok (ProtoNode
        (Some (ft.mkFSNode (if sharded u then ft.THAMTShard
                            else ft.TDirectory)
                           (mode u) (modTime u) 0))
        (links u) (cidBuilder u)).

(** The links in the iteration order of [for_each_link]. *)
Definition Links (u : Directory) : list (string * Node) :=
  map_to_list (links u).

(** Modelled from the spec: [for_each_link] calls [f] on every link in
    turn, threading the state [S] the callback closes over, and stops at
    the first error. *)
Definition ForEachLink {S : Type} (ctx : Context)
    (f : string * Node → S → option error * S) (u : Directory) (s : S)
    : option error * S :=
  match ctxErr ctx with
  | Some e => (Some e, s)
  | None =>
      fold_left (λ acc l, match acc with
                          | (Some _, _) => acc
                          | (None, s) => f l s
                          end)
                (Links u) (None, s)
  end.

(** Modelled from the spec: [set_stat(mode, mod_time)] overwrites the stat
    fields; a zero mode or a zero time, which is what [SetModTime] and
    [SetMode] pass for the field they do not change, leaves that field as
    it is. *)
Definition SetStat (md : N) (mt : Z) (u : Directory) : Directory :=
  mkDirectory (links u) (maxLinks u) (maxHAMTFanout u) (cidBuilder u)
              (if (0 <? md)%N then md else mode u)
              (if (mt =? 0)%Z then modTime u else mt) (sharded u).

End uio.

(** ** Overlay nodes (package mfs) *)

(** Modelled from the spec: [mfs.File] (section 4.2) holds the current node
    of a file; [NewFile] wraps the node and [File.GetNode] returns it. *)
Record File := mkFile {
  fname : string;
  fnode : Node }.

Definition NewFile (name : string) (nd : Node) : result File :=
  Ok (mkFile name nd).

Definition File_GetNode (fi : File) : result Node := Ok (fnode fi).

(** Modelled from the spec: [File.Size] is decoded from the UnixFS metadata
    of a protobuf file and is the byte length of a raw leaf. *)
Definition File_Size (fi : File) : result N :=
  match fnode fi with
  | ProtoNode data _ _ =>
      match FSNodeFromBytes data with
      | Ok fsn => Ok (ft.FileSize fsn)
      | Err e => Err e
      end
  | RawNode bytes => Ok (N.of_nat (String.length bytes))
  | OtherNode _ => Err ErrNotProtobuf
  end.

(** The interface [FSNode] has two implementations, [*Directory] and
    [*File]; a value of the interface is one of the two. *)
Inductive FSNodeOf (D : Type) :=
| IsDir (d : D)
| IsFile (fi : File).
Arguments IsDir {D} d.
Arguments IsFile {D} fi.

(** [type Directory struct]: [inode.name], [ctx], [unixfsDir] and
    [entriesCache].  [inode.parent] is the [Parent] chain below,
    [inode.dagService] lives in the [World], and [lock] shows in the event
    log only. *)
Inductive Directory := mkDirectory {
  name : string;
  ctx : Context;
  unixfsDir : uio.Directory;
  entriesCache : gmap string (FSNodeOf Directory) }.

Abbreviation FSNode := (FSNodeOf Directory).

Inductive NodeType := TFile | TDir.

Definition FSNode_Type (n : FSNode) : NodeType :=
  match n with IsDir _ => TDir | IsFile _ => TFile end.

Definition set_unixfsDir (u : uio.Directory) (d : Directory) : Directory :=
  mkDirectory (name d) (ctx d) u (entriesCache d).

Definition set_entriesCache (c : gmap string FSNode) (d : Directory)
    : Directory :=
  mkDirectory (name d) (ctx d) (unixfsDir d) c.

(** [NewDirectory(ctx, name, node, parent, dserv)] *)
Definition NewDirectory (c : Context) (nm : string) (node : Node)
    : result Directory :=
  match uio.NewDirectoryFromNode node with
  | Err e => Err e
  | Ok db => Ok (mkDirectory nm c db ∅)
  end.

Definition GetCidBuilder (d : Directory) : CidBuilder :=
  uio.GetCidBuilder (unixfsDir d).

Definition SetCidBuilder (b : CidBuilder) (d : Directory) : Directory :=
  set_unixfsDir (uio.SetCidBuilder b (unixfsDir d)) d.

(** [cacheNode]: the type switch on the node, then on the UnixFS kind.  The
    cache of [d] is only written on the successful branches. *)
Definition cacheNode (nm : string) (nd : Node) (d : Directory)
    : result FSNode * Directory :=
  match nd with
  | ProtoNode data _ _ =>
      match FSNodeFromBytes data with
      | Err e => (Err e, d)
      | Ok fsn =>
          match ft.Type_ fsn with
          | ft.TDirectory | ft.THAMTShard =>
              match NewDirectory (ctx d) nm nd with
              | Err e => (Err e, d)
              | Ok ndir =>
                  let ndir :=
                    set_unixfsDir
                      (uio.SetMaxLinks (uio.GetMaxLinks (unixfsDir d))
                         (unixfsDir ndir)) ndir in
                  let ndir :=
                    set_unixfsDir
                      (uio.SetMaxHAMTFanout
                         (uio.GetMaxHAMTFanout (unixfsDir d))
                         (unixfsDir ndir)) ndir in
                  (Ok (IsDir ndir),
                   set_entriesCache (<[nm := IsDir ndir]> (entriesCache d)) d)
              end
          | ft.TFile | ft.TRaw | ft.TSymlink =>
              match NewFile nm nd with
              | Err e => (Err e, d)
              | Ok nfi =>
                  (Ok (IsFile nfi),
                   set_entriesCache (<[nm := IsFile nfi]> (entriesCache d)) d)
              end
          | ft.TMetadata => (Err ErrNotYetImplemented, d)
          | ft.TUnknown _ => (Err ErrInvalidChild, d)
          end
      end
  | RawNode _ =>
      match NewFile nm nd with
      | Err e => (Err e, d)
      | Ok nfi =>
          (Ok (IsFile nfi),
           set_entriesCache (<[nm := IsFile nfi]> (entriesCache d)) d)
      end
  | OtherNode _ => (Err ErrUnrecognizedNode, d)
  end.

(** [childFromDag] *)
Definition childFromDag (nm : string) (d : Directory) : result Node :=
  uio.Find (ctx d) nm (unixfsDir d).

(** [childUnsync]: the cache first, then the backing directory. *)
Definition childUnsync (nm : string) (d : Directory)
    : result FSNode * Directory :=
  match entriesCache d !! nm with
  | Some entry => (Ok entry, d)
  | None =>
      match childFromDag nm d with
      | Err e => (Err e, d)
      | Ok nd => cacheNode nm nd d
      end
  end.

(** ** The shared world: DAG service and event log *)

(** What a method does with locks and with its neighbours in the tree:
    [d.lock.Lock()], the deferred [d.lock.Unlock()], the call of a method
    of a child overlay, and the call of [d.parent.updateChildEntry]. *)
Inductive Event :=
| EvLock (dir : string)
| EvUnlock (dir : string)
| EvChildCall (dir child method : string)
| EvParentCall (dir : string).

(** Modelled from the spec: the [DagStore] (section 6) as the list of the
    nodes added so far, newest first. *)
Record World := mkWorld {
  dagService : list Node;
  events : list Event }.

Definition emit (ev : Event) (w : World) : World :=
  mkWorld (dagService w) (events w ++ [ev])%list.

(** [dserv.Add(ctx, nd)] *)
Definition DAGService_Add (c : Context) (nd : Node) (w : World)
    : option error * World :=
  match ctxErr c with
  | Some e => (Some e, w)
  | None => (None, mkWorld (nd :: dagService w) (events w))
  end.

(** ** Reification: [cacheSync] and [getNode] *)

(** [entry.GetNode()] on a cache entry: dynamic dispatch on the overlay
    variant.  A directory entry is mutated by its own [getNode]. *)
Definition FSNode_GetNode
    (getDir : Directory → World → result Node * Directory * World)
    (entry : FSNode) (w : World) : result Node * FSNode * World :=
  match entry with
  | IsDir c => let '(r, c', w') := getDir c w in (r, IsDir c', w')
  | IsFile fi => (File_GetNode fi, IsFile fi, w)
  end.

(** The state of the loop of [cacheSync]: the error that ended it (if any),
    the backing directory, the cache (whose directory entries are mutated in
    place by [GetNode]) and the world. *)
Definition SyncState : Type :=
  option error * uio.Directory * gmap string FSNode * World.

(** One iteration of [for name, entry := range d.entriesCache]. *)
Definition cacheSyncStep
    (getDir : Directory → World → result Node * Directory * World)
    (dname : string) (c : Context)
    (nm : string) (entry : FSNode) (st : SyncState) : SyncState :=
  let '(err, u, cache, w) := st in
  match err with
  | Some _ => st
  | None =>
      let '(r, entry', w1) :=
        FSNode_GetNode getDir entry (emit (EvChildCall dname nm "GetNode") w) in
      let cache1 := <[nm := entry']> cache in
      match r with
      | Err e => (Some e, u, cache1, w1)
      | Ok nd =>
          let '(e, u') := uio.AddChild c nm nd u in
          (e, u', cache1, w1)
      end
  end.

(** [cacheSync(clean)], over the [GetNode] of the cached directories. *)
Definition cacheSyncWith
    (getDir : Directory → World → result Node * Directory * World)
    (clean : bool) (d : Directory) (w : World)
    : option error * Directory * World :=
  let '(err, u, cache, w') :=
    map_fold (cacheSyncStep getDir (name d) (ctx d))
             (None, unixfsDir d, entriesCache d, w) (entriesCache d) in
  match err with
  | Some e => (Some e, mkDirectory (name d) (ctx d) u cache, w')
  | None =>
      (None,
       mkDirectory (name d) (ctx d) u (if clean then ∅ else cache), w')
  end.

(** The tail of [getNode] after [cacheSync]. *)
Definition getNodeTail (err : option error) (d : Directory) (w : World)
    : result Node * Directory * World :=
  match err with
  | Some e => (Err e, d, emit (EvUnlock (name d)) w)
  | None =>
      match uio.GetNode (unixfsDir d) with
      | Err e => (Err e, d, emit (EvUnlock (name d)) w)
      | Ok nd =>
          let '(e, w1) := DAGService_Add (ctx d) nd w in
          match e with
          | Some e => (Err e, d, emit (EvUnlock (name d)) w1)
          | None => (Ok nd, d, emit (EvUnlock (name d)) w1)
          end
      end
  end.

(** [getNode(cacheClean)]: lock, [cacheSync], serialise, add to the DAG
    service, return a copy of the node.  A cached directory is reified by
    its own [GetNode], that is [getNode(false)]. *)
Fixpoint getNode (cacheClean : bool) (d : Directory) (w : World) {struct d}
    : result Node * Directory * World :=
  let '(err, d1, w1) :=
    cacheSyncWith (getNode false) cacheClean d (emit (EvLock (name d)) w) in
  getNodeTail err d1 w1.

Definition GetNode (d : Directory) (w : World)
    : result Node * Directory * World :=
  getNode false d w.

Definition cacheSync (clean : bool) (d : Directory) (w : World)
    : option error * Directory * World :=
  cacheSyncWith GetNode clean d w.

(** ** Upward propagation *)

(** [type child struct { Name string; Node ipld.Node }] *)
Record child := mkchild {
  Name : string;
  Node_ : Node }.

(** [localUpdate]: the locked part of [updateChildEntry]. *)
Definition localUpdate (c : child) (d : Directory) (w : World)
    : result Node * Directory * World :=
  let w := emit (EvLock (name d)) w in
  let '(err, u) := uio.AddChild (ctx d) (Name c) (Node_ c) (unixfsDir d) in
  let d := set_unixfsDir u d in
  match err with
  | Some e => (Err e, d, emit (EvUnlock (name d)) w)
  | None =>
      match uio.GetNode (unixfsDir d) with
      | Err e => (Err e, d, emit (EvUnlock (name d)) w)
      | Ok nd =>
          match nd with
          | ProtoNode _ _ _ =>
              let '(e, w1) := DAGService_Add (ctx d) nd w in
              match e with
              | Some e => (Err e, d, emit (EvUnlock (name d)) w1)
              | None => (Ok nd, d, emit (EvUnlock (name d)) w1)
              end
          | _ => (Err ErrNotProtobuf, d, emit (EvUnlock (name d)) w)
          end
      end
  end.

(** Modelled from the spec: [Root] (section 4.3) holds the name of the top
    directory and the CID most recently propagated to it;
    [Root.updateChildEntry] checks the name and records the CID. *)
Record Root := mkRoot {
  topName : string;
  rootCid : option Cid }.

Definition Root_updateChildEntry (c : child) (r : Root) (w : World)
    : option error * Root * World :=
  if String.eqb (Name c) (topName r)
  then (None, mkRoot (topName r) (Some (Node_Cid (Node_ c))), w)
  else (Some ErrRootName, r, w).

(** The interface [parent]: what [inode.parent] points to is another
    directory (with its own parent) or the root. *)
Inductive Parent :=
| ParentRoot (r : Root)
| ParentDir (d : Directory) (up : Parent).

(** [p.updateChildEntry(c)]: for a directory, [localUpdate] and then the
    same call on its own parent. *)
Fixpoint updateChildEntry (c : child) (p : Parent) (w : World)
    : option error * Parent * World :=
  match p with
  | ParentRoot r =>
      let '(e, r', w') := Root_updateChildEntry c r w in
      (e, ParentRoot r', w')
  | ParentDir d up =>
      let '(res, d', w1) := localUpdate c d w in
      match res with
      | Err e => (Some e, ParentDir d' up, w1)
      | Ok newDirNode =>
          let '(e, up', w2) :=
            updateChildEntry (mkchild (name d') newDirNode) up
                             (emit (EvParentCall (name d')) w1) in
          (e, ParentDir d' up', w2)
      end
  end.

(** [Flush]: [getNode(true)], then the update of the parent. *)
Definition Flush (d : Directory) (p : Parent) (w : World)
    : option error * Directory * Parent * World :=
  let '(res, d', w1) := getNode true d w in
  match res with
  | Err e => (Some e, d', p, w1)
  | Ok nd =>
      let '(e, p', w2) :=
        updateChildEntry (mkchild (name d') nd) p
                         (emit (EvParentCall (name d')) w1) in
      (e, d', p', w2)
  end.

(** ** Lookup and eviction *)

Definition Child (nm : string) (d : Directory) (w : World)
    : result FSNode * Directory * World :=
  let w := emit (EvLock (name d)) w in
  let '(r, d') := childUnsync nm d in
  (r, d', emit (EvUnlock (name d)) w).

Definition Uncache (nm : string) (d : Directory) (w : World)
    : Directory * World :=
  let w := emit (EvLock (name d)) w in
  (set_entriesCache (delete nm (entriesCache d)) d,
   emit (EvUnlock (name d)) w).

(** ** Creation, removal *)

(** Modelled from the spec: [MkdirOpts] (sections 3 and 6). *)
Record MkdirOpts := mkMkdirOpts {
  MaxLinks : N;
  MaxHAMTFanout : N;
  Mode : N;
  ModTime : Z;
  CidBuilder_ : CidBuilder }.

(** The zero value of [cid.Builder] in a struct literal that leaves the
    field out. *)
Definition nilBuilder : CidBuilder := 0%nat.

Definition set_CidBuilder (b : CidBuilder) (o : MkdirOpts) : MkdirOpts :=
  mkMkdirOpts (MaxLinks o) (MaxHAMTFanout o) (Mode o) (ModTime o) b.

(** [NewEmptyDirectory]: a fresh backing directory from the options, whose
    node is added to the DAG service. *)
Definition NewEmptyDirectory (c : Context) (nm : string) (opts : MkdirOpts)
    (w : World) : result Directory * World :=
  match uio.NewDirectory (MaxLinks opts) (MaxHAMTFanout opts) (Mode opts)
                         (ModTime opts) (CidBuilder_ opts) with
  | Err e => (Err e, w)
  | Ok db =>
      match uio.GetNode db with
      | Err e => (Err e, w)
      | Ok nd =>
          let '(e, w1) := DAGService_Add c nd w in
          match e with
          | Some e => (Err e, w1)
          | None => (Ok (mkDirectory nm c db ∅), w1)
          end
      end
  end.

(** [MkdirWithOpts] returns a pair: the directory (or [nil]) and the error
    (or [nil]); both are set when the name is already a directory. *)
Definition MkdirWithOpts (nm : string) (opts : MkdirOpts) (d : Directory)
    (w : World) : (option Directory * option error) * Directory * World :=
  let w := emit (EvLock (name d)) w in
  let '(fsn, d) := childUnsync nm d in
  match fsn with
  | Ok (IsDir c) => ((Some c, Some ErrExist), d, emit (EvUnlock (name d)) w)
  | Ok (IsFile _) => ((None, Some ErrExist), d, emit (EvUnlock (name d)) w)
  | Err _ =>
      let opts := set_CidBuilder (GetCidBuilder d) opts in
      let '(r, w) := NewEmptyDirectory (ctx d) nm opts w in
      match r with
      | Err e => ((None, Some e), d, emit (EvUnlock (name d)) w)
      | Ok dirobj =>
          let '(r, dirobj, w) :=
            GetNode dirobj (emit (EvChildCall (name d) nm "GetNode") w) in
          match r with
          | Err e => ((None, Some e), d, emit (EvUnlock (name d)) w)
          | Ok ndir =>
              let '(e, u) := uio.AddChild (ctx d) nm ndir (unixfsDir d) in
              let d := set_unixfsDir u d in
              match e with
              | Some e => ((None, Some e), d, emit (EvUnlock (name d)) w)
              | None =>
                  ((Some dirobj, None),
                   set_entriesCache (<[nm := IsDir dirobj]> (entriesCache d)) d,
                   emit (EvUnlock (name d)) w)
              end
          end
      end
  end.

Definition Mkdir (nm : string) (d : Directory) (w : World)
    : (option Directory * option error) * Directory * World :=
  MkdirWithOpts nm
    (mkMkdirOpts (uio.GetMaxLinks (unixfsDir d))
                 (uio.GetMaxHAMTFanout (unixfsDir d)) 0 0 nilBuilder)
    d w.

Definition Unlink (nm : string) (d : Directory) (w : World)
    : option error * Directory * World :=
  let w := emit (EvLock (name d)) w in
  let d := set_entriesCache (delete nm (entriesCache d)) d in
  let '(e, u) := uio.RemoveChild (ctx d) nm (unixfsDir d) in
  (e, set_unixfsDir u d, emit (EvUnlock (name d)) w).

(** [AddChild] of the overlay (not to be confused with [uio.AddChild]). *)
Definition AddChild (nm : string) (nd : Node) (d : Directory) (w : World)
    : option error * Directory * World :=
  let w := emit (EvLock (name d)) w in
  let '(r, d) := childUnsync nm d in
  match r with
  | Ok _ => (Some ErrDirExists, d, emit (EvUnlock (name d)) w)
  | Err _ =>
      let '(e, w) := DAGService_Add (ctx d) nd w in
      match e with
      | Some e => (Some e, d, emit (EvUnlock (name d)) w)
      | None =>
          let '(e, u) := uio.AddChild (ctx d) nm nd (unixfsDir d) in
          (e, set_unixfsDir u d, emit (EvUnlock (name d)) w)
      end
  end.

(** ** Listing *)

Record NodeListing := mkNodeListing {
  nlName : string;
  nlType : NodeType;
  nlSize : N;
  nlHash : Cid }.

Definition ListNames (c : Context) (d : Directory) (w : World)
    : result (list string) * World :=
  let w := emit (EvLock (name d)) w in
  let '(e, out) :=
    uio.ForEachLink c (λ l out, (None, (out ++ [l.1])%list)) (unixfsDir d) [] in
  match e with
  | Some e => (Err e, emit (EvUnlock (name d)) w)
  | None => (Ok out, emit (EvUnlock (name d)) w)
  end.

(** The callback of [ForEachEntry] for one link.  The state it closes over
    is the directory (whose cache [childUnsync] and the child's [GetNode]
    write), the world and the state [A] of the caller's function [f]. *)
Definition forEachEntryStep {A : Type}
    (f : NodeListing → A → option error * A)
    (l : string * Node) (st : Directory * World * A)
    : option error * (Directory * World * A) :=
  let '(d, w, a) := st in
  let '(r, d) := childUnsync l.1 d in
  match r with
  | Err e => (Some e, (d, w, a))
  | Ok c =>
      let '(r, c', w) :=
        FSNode_GetNode GetNode c (emit (EvChildCall (name d) l.1 "GetNode") w) in
      let d := set_entriesCache (<[l.1 := c']> (entriesCache d)) d in
      match r with
      | Err e => (Some e, (d, w, a))
      | Ok nd =>
          let w := emit (EvChildCall (name d) l.1 "Type") w in
          let listing := mkNodeListing l.1 (FSNode_Type c') 0 (Node_Cid nd) in
          match c' with
          | IsFile fi =>
              let w := emit (EvChildCall (name d) l.1 "Size") w in
              match File_Size fi with
              | Err e => (Some e, (d, w, a))
              | Ok size =>
                  let '(e, a) :=
                    f (mkNodeListing l.1 (FSNode_Type c') size (Node_Cid nd)) a in
                  (e, (d, w, a))
              end
          | IsDir _ =>
              let '(e, a) := f listing a in (e, (d, w, a))
          end
      end
  end.

Definition ForEachEntry {A : Type} (c : Context)
    (f : NodeListing → A → option error * A)
    (d : Directory) (w : World) (a : A)
    : option error * Directory * World * A :=
  let w := emit (EvLock (name d)) w in
  let '(e, (d, w, a)) :=
    uio.ForEachLink c (forEachEntryStep f) (unixfsDir d) (d, w, a) in
  (e, d, emit (EvUnlock (name d)) w, a).

Definition List (c : Context) (d : Directory) (w : World)
    : option error * Directory * World * list NodeListing :=
  ForEachEntry c (λ nl out, (None, (out ++ [nl])%list)) d w [].

(** ** Mode and modification time *)

(** Modelled from the spec: [ft.ExtractFSNode] decodes the UnixFS metadata
    of a protobuf node and fails on any other node. *)
Definition ExtractFSNode (nd : Node) : result ft.FSNode :=
  match nd with
  | ProtoNode data _ _ => FSNodeFromBytes data
  | _ => Err ErrNotProtobuf
  end.

(** [fsn.SetMode(mode)] and [fsn.SetModTime(ts)] on the decoded metadata. *)
Definition ft_SetMode (md : N) (fsn : ft.FSNode) : ft.FSNode :=
  ft.mkFSNode (ft.Type_ fsn) md (ft.ModTime fsn) (ft.FileSize fsn).

Definition ft_SetModTime (ts : Z) (fsn : ft.FSNode) : ft.FSNode :=
  ft.mkFSNode (ft.Type_ fsn) (ft.Mode fsn) ts (ft.FileSize fsn).

(** Modelled from the spec: [fsn.GetBytes()] encodes the metadata as the
    data field of a protobuf node. *)
Definition ft_GetBytes (fsn : ft.FSNode) : result (option ft.FSNode) :=
  Ok (Some fsn).

(** Modelled from the spec: [nd.Links()], [dag.NodeWithData(data)] and
    [nd.SetLinks(links)].  A node made by [NodeWithData] has no links and
    no CID builder of its own. *)
Definition Node_Links (nd : Node) : gmap string Node :=
  match nd with
  | ProtoNode _ lks _ => lks
  | _ => ∅
  end.

Definition NodeWithData (data : option ft.FSNode) : Node :=
  ProtoNode data ∅ nilBuilder.

Definition SetLinks (lks : gmap string Node) (nd : Node) : Node :=
  match nd with
  | ProtoNode data _ b => ProtoNode data lks b
  | _ => nd
  end.

(** [setNodeData]: build the node, add it to the DAG service, update the
    parent, and only then take the lock and replace the backing directory
    by one over the new node, carrying over the two limits. *)
Definition setNodeData (data : option ft.FSNode) (lks : gmap string Node)
    (d : Directory) (p : Parent) (w : World)
    : option error * Directory * Parent * World :=
  let nd := SetLinks lks (NodeWithData data) in
  let '(e, w) := DAGService_Add (ctx d) nd w in
  match e with
  | Some e => (Some e, d, p, w)
  | None =>
      let '(e, p, w) :=
        updateChildEntry (mkchild (name d) nd) p
                         (emit (EvParentCall (name d)) w) in
      match e with
      | Some e => (Some e, d, p, w)
      | None =>
          let w := emit (EvLock (name d)) w in
          match uio.NewDirectoryFromNode nd with
          | Err e => (Some e, d, p, emit (EvUnlock (name d)) w)
          | Ok db =>
              let db := uio.SetMaxLinks (uio.GetMaxLinks (unixfsDir d)) db in
              let db :=
                uio.SetMaxHAMTFanout (uio.GetMaxHAMTFanout (unixfsDir d)) db in
              (None, set_unixfsDir db d, p, emit (EvUnlock (name d)) w)
          end
      end
  end.

(** [SetMode(mode)]: [GetNode], decode the metadata, set the mode, encode,
    [setNodeData] with the links of the node, and [SetStat] on the new
    backing directory with the zero time [time.Time{}]. *)
Definition SetMode (md : N) (d : Directory) (p : Parent) (w : World)
    : option error * Directory * Parent * World :=
  let '(r, d, w) := GetNode d w in
  match r with
  | Err e => (Some e, d, p, w)
  | Ok nd =>
      match ExtractFSNode nd with
      | Err e => (Some e, d, p, w)
      | Ok fsn =>
          let fsn := ft_SetMode md fsn in
          match ft_GetBytes fsn with
          | Err e => (Some e, d, p, w)
          | Ok data =>
              let '(e, d, p, w) := setNodeData data (Node_Links nd) d p w in
              match e with
              | Some e => (Some e, d, p, w)
              | None =>
                  (None,
                   set_unixfsDir (uio.SetStat md 0 (unixfsDir d)) d,
                   p, w)
              end
          end
      end
  end.

(** [SetModTime(ts)]: the same with the modification time; the mode passed
    to [SetStat] is [0]. *)
Definition SetModTime (ts : Z) (d : Directory) (p : Parent) (w : World)
    : option error * Directory * Parent * World :=
  let '(r, d, w) := GetNode d w in
  match r with
  | Err e => (Some e, d, p, w)
  | Ok nd =>
      match ExtractFSNode nd with
      | Err e => (Some e, d, p, w)
      | Ok fsn =>
          let fsn := ft_SetModTime ts fsn in
          match ft_GetBytes fsn with
          | Err e => (Some e, d, p, w)
          | Ok data =>
              let '(e, d, p, w) := setNodeData data (Node_Links nd) d p w in
              match e with
              | Some e => (Some e, d, p, w)
              | None =>
                  (None,
                   set_unixfsDir (uio.SetStat 0 ts (unixfsDir d)) d,
                   p, w)
              end
          end
      end
  end.


(** ** Vocabulary of the statements *)

(** The world after a method that only takes and releases the lock of [d]. *)
Definition locked (d : Directory) (w : World) : World :=
  emit (EvUnlock (name d)) (emit (EvLock (name d)) w).

(** [d] with [e] cached under [nm]. *)
Definition cached (nm : string) (e : FSNode) (d : Directory) : Directory :=
  set_entriesCache (<[nm := e]> (entriesCache d)) d.

(** The overlay of a child directory named [nm] of [d], over a directory
    node with links [lks], builder [b] and metadata [fsn]: the limits are
    those of [d], everything else is the node's. *)
Definition childDirOf (d : Directory) (nm : string)
    (lks : gmap string Node) (b : CidBuilder) (fsn : ft.FSNode)
    (sh : bool) : Directory :=
  mkDirectory nm (ctx d)
    (uio.mkDirectory lks (uio.maxLinks (unixfsDir d))
       (uio.maxHAMTFanout (unixfsDir d)) b (ft.Mode fsn) (ft.ModTime fsn) sh)
    ∅.

(** The empty directory [MkdirWithOpts] creates under [d]: the options of
    the caller, except for the builder, which is the one of [d]. *)
Definition freshDirOf (d : Directory) (nm : string) (opts : MkdirOpts)
    : Directory :=
  mkDirectory nm (ctx d)
    (uio.mkDirectory ∅ (MaxLinks opts) (MaxHAMTFanout opts)
       (GetCidBuilder d) (Mode opts) (ModTime opts) false)
    ∅.

(** The node of a directory with no links. *)
Definition emptyDirNode (md : N) (mt : Z) (b : CidBuilder) : Node :=
  ProtoNode (Some (ft.mkFSNode ft.TDirectory md mt 0)) ∅ b.

(** ** Concrete trees used in the examples *)

Definition w0 : World := mkWorld [] [].

Definition fileNode : Node :=
  ProtoNode (Some (ft.mkFSNode ft.TFile 0 0 5)) ∅ 0%nat.

(** A directory node whose builder is [7]. *)
Definition dirNode : Node :=
  ProtoNode (Some (ft.mkFSNode ft.TDirectory 0 0 0)) ∅ 7%nat.

(** A backing directory with limits 10 and 20 and builder [1]. *)
Definition backing (lks : gmap string Node) : uio.Directory :=
  uio.mkDirectory lks 10 20 1%nat 0 0 false.

(** An empty top directory. *)
Definition emptyTop : Directory :=
  mkDirectory "r" Background (backing ∅) ∅.

(** A top directory in which [a] is linked to a directory node and [x] to
    a file node; nothing is cached. *)
Definition linkedTop : Directory :=
  mkDirectory "r" Background
    (backing (<["a" := dirNode]> {["x" := fileNode]})) ∅.

(** A top directory whose cache holds the file overlay [f], not yet linked
    in the backing directory. *)
Definition pendingTop : Directory :=
  mkDirectory "r" Background (backing ∅)
    {["f" := IsFile (mkFile "f" fileNode)]}.

(** The same, over a cancelled context. *)
Definition cancelledTop : Directory :=
  mkDirectory "r" Cancelled (backing ∅)
    {["f" := IsFile (mkFile "f" fileNode)]}.

Definition topRoot : Parent := ParentRoot (mkRoot "r" None).

(** ** Lock discipline over the event log *)

(** The number of directory overlays in a tree of overlays. *)
Fixpoint dsize (d : Directory) : nat :=
  S (map_fold (λ _ e acc, match e with
                          | IsDir c => dsize c + acc
                          | IsFile _ => acc
                          end) 0%nat (entriesCache d)).

(** [release dir held]: the locks still held after [dir.lock.Unlock()]. *)
Fixpoint release (dir : string) (held : list string) : list string :=
  match held with
  | [] => []
  | h :: t => if String.eqb h dir then t else h :: release dir t
  end.

(** The discipline as the spec words it: reading the log from [held], no
    method of a child is called by a directory whose lock is held. *)
Fixpoint child_calls_unlocked (held : list string) (tr : list Event) : bool :=
  match tr with
  | [] => true
  | EvLock n :: tr => child_calls_unlocked (n :: held) tr
  | EvUnlock n :: tr => child_calls_unlocked (release n held) tr
  | EvChildCall d _ _ :: tr =>
      negb (bool_decide (d ∈ held)) && child_calls_unlocked held tr
  | EvParentCall _ :: tr => child_calls_unlocked held tr
  end.

(** The discipline of the code: locks are released in the reverse order of
    their acquisition, a directory calls a method of a child while it holds
    its own lock (taken last), and it calls its parent while no lock is
    held.  The result is the stack of locks held at the end of the log, or
    [None] when the log breaks the discipline. *)
Fixpoint lock_order (held : list string) (tr : list Event)
    : option (list string) :=
  match tr with
  | [] => Some held
  | EvLock n :: tr => lock_order (n :: held) tr
  | EvUnlock n :: tr =>
      match held with
      | h :: t => if String.eqb h n then lock_order t tr else None
      | [] => None
      end
  | EvChildCall d _ _ :: tr =>
      match held with
      | h :: _ => if String.eqb h d then lock_order held tr else None
      | [] => None
      end
  | EvParentCall _ :: tr =>
      match held with
      | [] => lock_order [] tr
      | _ :: _ => None
      end
  end.

(** A world with the given DAG service and an empty log. *)
Definition quiet (dag : list Node) : World := mkWorld dag [].

(** A top directory whose cache holds the directory overlay [a], which in
    turn caches the file overlay [f]. *)
Definition nestedTop : Directory :=
  mkDirectory "r" Background (backing ∅)
    {["a" := IsDir (mkDirectory "a" Background (backing ∅)
                      {["f" := IsFile (mkFile "f" fileNode)]})]}.

(** [segment h h' w w']: the world [w'] extends the log of [w] by events
    that respect [lock_order] and take the held locks from [h] to [h']. *)
Definition segment (h h' : list string) (w w' : World) : Prop :=
  ∃ δ, events w' = (events w ++ δ)%list ∧ lock_order h δ = Some h'.

(** A method [g] of directory overlays keeps the locks it finds. *)
Definition keeps_locks
    (g : Directory → World → result Node * Directory * World)
    (c : Directory) : Prop :=
  ∀ w h, segment h h w (g c w).2.

(** ** Further vocabulary *)

(** A protobuf node of the UnixFS kind Metadata. *)
Definition metadataNode : Node :=
  ProtoNode (Some (ft.mkFSNode ft.TMetadata 0 0 0)) ∅ 0%nat.

(** A top directory in which [m] is linked to a Metadata node. *)
Definition metadataTop : Directory :=
  mkDirectory "r" Background (backing {["m" := metadataNode]}) ∅.

(** The node [entry.GetNode()] returns for a cache entry. *)
Definition entryNode (entry : FSNode) : result Node :=
  (FSNode_GetNode GetNode entry w0).1.1.

(** The name an overlay was created with ([inode.name]). *)
Definition FSNode_name (n : FSNode) : string :=
  match n with IsDir c => name c | IsFile fi => fname fi end.

(** [grows w w']: the DAG service of [w'] holds every node of [w], in the
    same order, and possibly newer ones. *)
Definition grows (w w' : World) : Prop :=
  dagService w `suffix_of` dagService w'.

(** The result of a method of directory overlays does not depend on the
    world it runs in. *)
Definition world_independent
    (g : Directory → World → result Node * Directory * World)
    (c : Directory) : Prop :=
  ∀ w1 w2, (g c w1).1 = (g c w2).1.

(** [synced e e']: what [GetNode] may have done to the cache entry [e]:
    the same variant under the same name, and a file overlay untouched. *)
Definition synced (e e' : FSNode) : Prop :=
  FSNode_Type e' = FSNode_Type e ∧
  FSNode_name e' = FSNode_name e ∧
  (∀ fi, e = IsFile fi → e' = e).

(** [relinked dag c p p']: the chain of ancestors [p'] is [p] after the
    message [c] has travelled up: every ancestor directory is as before
    except that it links the child below it to that child's new node, its
    own new node is in the DAG service [dag] and has travelled further up,
    and the root records the node of the top directory. *)
Fixpoint relinked (dag : list Node) (c : child) (p p' : Parent) : Prop :=
  match p, p' with
  | ParentRoot r, ParentRoot r' =>
      Name c = topName r ∧
      r' = mkRoot (topName r) (Some (Node_Cid (Node_ c)))
  | ParentDir d up, ParentDir d' up' =>
      d' = set_unixfsDir
             (uio.set_links (<[Name c := Node_ c]> (uio.links (unixfsDir d)))
                (unixfsDir d)) d ∧
      ∃ nd, uio.GetNode (unixfsDir d') = Ok nd ∧ nd ∈ dag ∧
            relinked dag (mkchild (name d) nd) up up'
  | _, _ => False
  end.

(** A directory [a] with the pending file [f], under the top directory. *)
Definition pendingSub : Directory :=
  mkDirectory "a" Background (backing ∅)
    {["f" := IsFile (mkFile "f" fileNode)]}.

(** The ancestors of [pendingSub]: the top directory, which links [a] to
    an older node, and the root. *)
Definition subParent : Parent :=
  ParentDir (mkDirectory "r" Background (backing {["a" := dirNode]})
               {["a" := IsDir pendingSub]})
            topRoot.

(** The same ancestors when the context of the top directory has been
    cancelled. *)
Definition cancelledParent : Parent :=
  ParentDir (mkDirectory "r" Cancelled (backing {["a" := dirNode]}) ∅)
            topRoot.

(** The log holds the call of a method of a child overlay. *)
Definition calls_child (tr : list Event) : bool :=
  existsb (λ ev, match ev with EvChildCall _ _ _ => true | _ => false end) tr.

(** ** The invariant of the cache

    [wf d]: every overlay in the cache of [d] carries the name it is cached
    under and the context of [d], its name is linked in the backing
    directory of [d], and the cached directories are well formed in turn. *)
Inductive wf : Directory → Prop :=
| wf_intro (d : Directory) :
    (∀ k e, entriesCache d !! k = Some e →
       FSNode_name e = k ∧ is_Some (uio.links (unixfsDir d) !! k)) →
    (∀ k c, entriesCache d !! k = Some (IsDir c) → ctx c = ctx d ∧ wf c) →
    wf d.


(** The invariant along the chain of ancestors. *)
Fixpoint wfParent (p : Parent) : Prop :=
  match p with
  | ParentRoot _ => True
  | ParentDir d up => wf d ∧ wfParent up
  end.

(** * Properties *)

Lemma Child_eq nm d w :
  Child nm d w = ((childUnsync nm d).1, (childUnsync nm d).2, locked d w).
Proof. unfold Child, locked. by destruct (childUnsync nm d). Qed.

Lemma childUnsync_cached nm d e :
  entriesCache d !! nm = Some e → childUnsync nm d = (Ok e, d).
Proof. intros H. unfold childUnsync. by rewrite H. Qed.

Lemma childUnsync_uncached nm d :
  entriesCache d !! nm = None →
  childUnsync nm d =
    match uio.Find (ctx d) nm (unixfsDir d) with
    | Err e => (Err e, d)
    | Ok nd => cacheNode nm nd d
    end.
Proof. intros H. unfold childUnsync, childFromDag. by rewrite H. Qed.

(** [cacheNode] either fails and leaves [d] alone, or caches what it
    returns. *)
Lemma cacheNode_cases nm nd d :
  (∃ e, cacheNode nm nd d = (Err e, d)) ∨
  (∃ n, cacheNode nm nd d = (Ok n, cached nm n d)).
Proof.
  unfold cacheNode, NewDirectory, uio.NewDirectoryFromNode, NewFile, cached.
  destruct nd as [[fsn|] lks b| |]; simpl; eauto.
  destruct fsn as [[] ? ? ?]; simpl; eauto.
Qed.

Lemma childUnsync_cases nm d :
  (∃ e, childUnsync nm d = (Err e, d) ∧ entriesCache d !! nm = None) ∨
  (∃ n, childUnsync nm d = (Ok n, d) ∧ entriesCache d !! nm = Some n) ∨
  (∃ n, childUnsync nm d = (Ok n, cached nm n d) ∧ entriesCache d !! nm = None).
Proof.
  destruct (entriesCache d !! nm) as [n|] eqn:Hc.
  - right; left. exists n. by rewrite (childUnsync_cached _ _ _ Hc).
  - rewrite (childUnsync_uncached _ _ Hc).
    destruct (uio.Find _ _ _) as [nd|e]; [|left; eauto].
    destruct (cacheNode_cases nm nd d) as [[e ->]|[n ->]]; eauto.
Qed.

Lemma childUnsync_ok_cached nm d n d' :
  childUnsync nm d = (Ok n, d') →
  entriesCache d' !! nm = Some n ∧ unixfsDir d' = unixfsDir d ∧
  name d' = name d ∧ ctx d' = ctx d.
Proof.
  intros H.
  destruct (childUnsync_cases nm d)
    as [(e & He & Hc)|[(m & Hm & Hc)|(m & Hm & Hc)]];
    rewrite H in Hm || rewrite H in He; simplify_eq; [done|].
  simpl. by rewrite lookup_insert_eq.
Qed.

Lemma childUnsync_err nm d e d' :
  childUnsync nm d = (Err e, d') → d' = d ∧ entriesCache d !! nm = None.
Proof.
  intros H.
  destruct (childUnsync_cases nm d)
    as [(e' & He & Hc)|[(m & Hm & Hc)|(m & Hm & Hc)]];
    rewrite H in Hm || rewrite H in He; by simplify_eq.
Qed.

(** ** Lookup and materialisation *)

(** C2: [Child] returns a cached overlay as it is, without touching the
    backing directory or the DAG service.  For a name that is not cached it
    resolves the name with [Find] and materialises by kind: Directory and
    HAMTShard give a directory overlay, File, Raw and Symlink a file
    overlay, Metadata fails with [ErrNotYetImplemented], any other kind
    with [ErrInvalidChild], and a raw leaf gives a file overlay; on success
    the overlay is cached under the name and returned. *)
Theorem child_materializes (d : Directory) (nm : string) (w : World) :
  (∀ e, entriesCache d !! nm = Some e →
        Child nm d w = (Ok e, d, locked d w)) ∧
  (entriesCache d !! nm = None →
   (∀ e, uio.Find (ctx d) nm (unixfsDir d) = Err e →
         Child nm d w = (Err e, d, locked d w)) ∧
   (∀ nd, uio.Find (ctx d) nm (unixfsDir d) = Ok nd →
     match nd with
     | ProtoNode (Some fsn) lks b =>
         match ft.Type_ fsn with
         | ft.TDirectory =>
             let ndir := childDirOf d nm lks b fsn false in
             Child nm d w =
               (Ok (IsDir ndir), cached nm (IsDir ndir) d, locked d w)
         | ft.THAMTShard =>
             let ndir := childDirOf d nm lks b fsn true in
             Child nm d w =
               (Ok (IsDir ndir), cached nm (IsDir ndir) d, locked d w)
         | ft.TFile | ft.TRaw | ft.TSymlink =>
             let nfi := mkFile nm nd in
             Child nm d w =
               (Ok (IsFile nfi), cached nm (IsFile nfi) d, locked d w)
         | ft.TMetadata =>
             Child nm d w = (Err ErrNotYetImplemented, d, locked d w)
         | ft.TUnknown _ =>
             Child nm d w = (Err ErrInvalidChild, d, locked d w)
         end
     | RawNode _ =>
         let nfi := mkFile nm nd in
         Child nm d w =
           (Ok (IsFile nfi), cached nm (IsFile nfi) d, locked d w)
     | _ => ∃ e, Child nm d w = (Err e, d, locked d w)
     end)).
Proof.
  split.
  - intros e He. by rewrite Child_eq, (childUnsync_cached _ _ _ He).
  - intros Hn. split.
    + intros e Hf. by rewrite Child_eq, (childUnsync_uncached _ _ Hn), Hf.
    + intros nd Hf. rewrite Child_eq, (childUnsync_uncached _ _ Hn), Hf.
      destruct nd as [[fsn|] lks b| |]; simpl; eauto.
      by destruct fsn as [[] ? ? ?].
Qed.

Lemma child_materializes_witness :
  Child "f" pendingTop w0 =
    (Ok (IsFile (mkFile "f" fileNode)), pendingTop, locked pendingTop w0) ∧
  Child "a" linkedTop w0 =
    (Ok (IsDir (childDirOf linkedTop "a" ∅ 7%nat (ft.mkFSNode ft.TDirectory 0 0 0) false)),
     cached "a" (IsDir (childDirOf linkedTop "a" ∅ 7%nat (ft.mkFSNode ft.TDirectory 0 0 0) false)) linkedTop,
     locked linkedTop w0).
Proof.
  split.
  - apply (proj1 (child_materializes pendingTop "f" w0)). reflexivity.
  - apply (proj2 (proj2 (child_materializes linkedTop "a" w0) eq_refl) dirNode).
    reflexivity.
Defined.

(** C6 (as stated, refuted): a directory materialised by [Child] under a
    parent whose builder is [1], over a node whose builder is [7], carries
    the builder [7]: the builder is not inherited. *)
Lemma child_builder_not_inherited :
  ∃ ndir d' w',
    entriesCache linkedTop !! "a" = None ∧
    Child "a" linkedTop w0 = (Ok (IsDir ndir), d', w') ∧
    GetCidBuilder ndir ≠ GetCidBuilder linkedTop.
Proof.
  eexists _, _, _. split; [reflexivity|]. split; [reflexivity|].
  vm_compute. discriminate.
Qed.

(** C6 (amended): a child directory that [Child] materialises from the
    backing directory has the [MaxLinks] and [MaxHAMTFanout] of its parent;
    its CID builder is the one of the node it is built over. *)
Theorem child_inherits_limits (d : Directory) (nm : string) (w : World)
    (ndir d' : Directory) (w' : World) :
  entriesCache d !! nm = None →
  Child nm d w = (Ok (IsDir ndir), d', w') →
  uio.GetMaxLinks (unixfsDir ndir) = uio.GetMaxLinks (unixfsDir d) ∧
  uio.GetMaxHAMTFanout (unixfsDir ndir) = uio.GetMaxHAMTFanout (unixfsDir d) ∧
  ∃ data lks b,
    uio.Find (ctx d) nm (unixfsDir d) = Ok (ProtoNode data lks b) ∧
    GetCidBuilder ndir = b.
Proof.
  intros Hn. rewrite Child_eq, (childUnsync_uncached _ _ Hn).
  destruct (uio.Find _ _ _) as [nd|e]; [|simpl; congruence].
  destruct nd as [[fsn|] lks b|bytes|tag]; simpl; try congruence.
  destruct fsn as [[] md mt sz]; simpl; intros H; simplify_eq; simpl; eauto 10.
Qed.

Lemma child_inherits_limits_witness :
  ∃ ndir,
    (Child "a" linkedTop w0).1.1 = Ok (IsDir ndir) ∧
    uio.GetMaxLinks (unixfsDir ndir) = 10%N ∧
    uio.GetMaxHAMTFanout (unixfsDir ndir) = 20%N ∧
    GetCidBuilder ndir = 7%nat.
Proof.
  eexists. split; [reflexivity|].
  destruct (child_inherits_limits linkedTop "a" w0 _ _ _ eq_refl eq_refl)
    as (Hl & Hf & data & lks & b & Hfind & Hb).
  split; [exact Hl|]. split; [exact Hf|]. reflexivity.
Defined.

(** ** Removal *)

Lemma Unlink_eq nm d w :
  Unlink nm d w =
    ((uio.RemoveChild (ctx d) nm (unixfsDir d)).1,
     mkDirectory (name d) (ctx d)
       (uio.RemoveChild (ctx d) nm (unixfsDir d)).2
       (delete nm (entriesCache d)),
     locked d w).
Proof. unfold Unlink. simpl. by destruct (uio.RemoveChild _ _ _). Qed.

(** C7: over a live context, [Unlink] of a name that is neither cached nor
    linked returns no error (and changes neither the cache nor the
    links). *)
Theorem unlink_absent_succeeds (d : Directory) (nm : string) (w : World) :
  ctx d = Background →
  entriesCache d !! nm = None →
  uio.links (unixfsDir d) !! nm = None →
  Unlink nm d w = (None, d, locked d w).
Proof.
  destruct d as [n c [l ml mf b md mt sh] cache]; simpl.
  intros -> Hc Hl. rewrite Unlink_eq. simpl. unfold uio.set_links. simpl.
  by rewrite !delete_id.
Qed.

Lemma unlink_absent_succeeds_witness :
  Unlink "ghost" linkedTop w0 = (None, linkedTop, locked linkedTop w0).
Proof.
  apply (unlink_absent_succeeds linkedTop "ghost" w0); reflexivity.
Defined.

(** C10: [Unlink] drops the name from the cache before it calls
    [RemoveChild].  When [RemoveChild] fails, [Unlink] returns that error
    and the cache entry is gone all the same: the next lookup of the name
    goes to the backing directory. *)
Theorem unlink_not_atomic (d : Directory) (nm : string) (w : World)
    (err : error) (u : uio.Directory) :
  uio.RemoveChild (ctx d) nm (unixfsDir d) = (Some err, u) →
  ∃ d', Unlink nm d w = (Some err, d', locked d w) ∧
        entriesCache d' = delete nm (entriesCache d) ∧
        entriesCache d' !! nm = None ∧
        childUnsync nm d' =
          match childFromDag nm d' with
          | Err e => (Err e, d')
          | Ok nd => cacheNode nm nd d'
          end.
Proof.
  intros H. rewrite Unlink_eq, H. simpl. eexists. split; [done|].
  simpl. split; [done|]. split; [apply lookup_delete_eq|].
  unfold childUnsync. simpl. by rewrite lookup_delete_eq.
Qed.

Lemma unlink_not_atomic_witness :
  entriesCache cancelledTop !! "f" = Some (IsFile (mkFile "f" fileNode)) ∧
  ∃ d', Unlink "f" cancelledTop w0 = (Some ErrCanceled, d', locked cancelledTop w0) ∧
        entriesCache d' !! "f" = None.
Proof.
  split; [reflexivity|].
  destruct (unlink_not_atomic cancelledTop "f" w0 ErrCanceled (backing ∅) eq_refl)
    as (d' & Hu & _ & Hn & _).
  exists d'. split; [exact Hu | exact Hn].
Defined.

(** ** Reification *)

Lemma getNode_unfold clean d w :
  getNode clean d w =
    let '(err, d1, w1) :=
      cacheSyncWith (getNode false) clean d (emit (EvLock (name d)) w) in
    getNodeTail err d1 w1.
Proof. by destruct d. Qed.

Lemma cacheSyncWith_empty g clean d w :
  entriesCache d = ∅ → cacheSyncWith g clean d w = (None, d, w).
Proof.
  destruct d as [n c u cache]; simpl. intros ->.
  unfold cacheSyncWith. simpl. rewrite map_fold_empty. by destruct clean.
Qed.

(** [getNode] on a directory with nothing cached, over a live context. *)
Lemma getNode_empty clean d w :
  entriesCache d = ∅ → ctx d = Background →
  ∃ nd, uio.GetNode (unixfsDir d) = Ok nd ∧
        getNode clean d w =
          (Ok nd, d,
           mkWorld (nd :: dagService w)
                   (events w ++ [EvLock (name d); EvUnlock (name d)])).
Proof.
  intros He Hc. eexists. split; [reflexivity|].
  rewrite getNode_unfold, (cacheSyncWith_empty _ _ _ _ He).
  unfold getNodeTail, DAGService_Add. rewrite Hc. simpl.
  unfold emit. simpl. by rewrite <- app_assoc.
Qed.

(** ** Creation *)

(** C3: when the name does not resolve, [MkdirWithOpts] over a live context
    returns a new empty directory built from the options of the caller
    except for the CID builder, which is the one of the parent whatever the
    options say; the node of the new directory is linked under the name in
    the backing directory and stored in the DAG service, and the new
    overlay is cached under the name. *)
Theorem mkdir_forces_parent_builder (d : Directory) (nm : string)
    (opts : MkdirOpts) (w : World) (e : error) :
  (childUnsync nm d).1 = Err e →
  ctx d = Background →
  let dirobj := freshDirOf d nm opts in
  let ndir := emptyDirNode (Mode opts) (ModTime opts) (GetCidBuilder d) in
  ∃ d' w',
    MkdirWithOpts nm opts d w = ((Some dirobj, None), d', w') ∧
    GetCidBuilder dirobj = GetCidBuilder d ∧
    uio.GetNode (unixfsDir dirobj) = Ok ndir ∧
    uio.links (unixfsDir d') = <[nm := ndir]> (uio.links (unixfsDir d)) ∧
    entriesCache d' = <[nm := IsDir dirobj]> (entriesCache d) ∧
    ndir ∈ dagService w'.
Proof.
  intros He Hctx dirobj ndir. unfold MkdirWithOpts.
  destruct (childUnsync nm d) as [r d1] eqn:Hcu. simpl in He. subst r.
  destruct (childUnsync_err _ _ _ _ Hcu) as [-> Hnone].
  unfold NewEmptyDirectory, uio.NewDirectory, DAGService_Add. simpl.
  rewrite Hctx. simpl.
  unfold GetNode.
  match goal with
  | |- context [getNode false ?x ?y] =>
      destruct (getNode_empty false x y eq_refl eq_refl) as (nd & Hnd & ->)
  end.
  unfold uio.GetNode in Hnd. simpl in Hnd. injection Hnd as <-. simpl.
  rewrite ?Hctx. simpl.
  subst dirobj ndir. unfold freshDirOf, emptyDirNode. rewrite ?Hctx.
  eexists _, _. split; [reflexivity|]. simpl.
  repeat (split; [done|]). apply list_elem_of_here.
Qed.

Lemma mkdir_forces_parent_builder_witness :
  ∃ d' w',
    MkdirWithOpts "a" (mkMkdirOpts 3 4 493 0 9%nat) emptyTop w0 =
      ((Some (freshDirOf emptyTop "a" (mkMkdirOpts 3 4 493 0 9%nat)), None),
       d', w') ∧
    GetCidBuilder (freshDirOf emptyTop "a" (mkMkdirOpts 3 4 493 0 9%nat)) = 1%nat.
Proof.
  destruct (mkdir_forces_parent_builder emptyTop "a"
              (mkMkdirOpts 3 4 493 0 9%nat) w0 ErrNotExist eq_refl eq_refl)
    as (d' & w' & Hm & Hb & _).
  exists d', w'. split; [exact Hm | exact Hb].
Defined.

Lemma MkdirWithOpts_exists nm opts d w n d1 :
  childUnsync nm d = (Ok n, d1) →
  MkdirWithOpts nm opts d w =
    (match n with
     | IsDir c => (Some c, Some ErrExist)
     | IsFile _ => (None, Some ErrExist)
     end, d1, locked d w).
Proof.
  intros H. unfold MkdirWithOpts. rewrite H.
  destruct (childUnsync_ok_cached _ _ _ _ H) as (_ & _ & -> & _).
  by destruct n.
Qed.

(** C4 (as stated, refuted): [a] is linked to a directory node and not yet
    cached; [Mkdir] returns the overlay with [ErrExist], and the cache of
    the parent has changed: the overlay is now cached under [a]. *)
Lemma mkdir_existing_changes_cache :
  ∃ D1 d' w',
    childUnsync "a" linkedTop = (Ok (IsDir D1), d') ∧
    Mkdir "a" linkedTop w0 = ((Some D1, Some ErrExist), d', w') ∧
    entriesCache d' ≠ entriesCache linkedTop.
Proof.
  eexists _, _, _. split; [reflexivity|]. split; [reflexivity|].
  intros H. apply (f_equal (λ m, m !! "a")) in H. vm_compute in H.
  discriminate.
Qed.

(** C4 (amended): when the name resolves to a directory overlay, [Mkdir]
    (and [MkdirWithOpts], whatever the options) returns that overlay, which
    is the one cached under the name, with [ErrExist]; when it resolves to
    a file overlay, [Mkdir] returns [ErrExist] and no overlay.  In both
    cases the backing directory and the DAG service are unchanged; the
    parent is unchanged altogether when the name was cached, and otherwise
    its cache has gained the overlay that the lookup materialised. *)
Theorem mkdir_existing (d : Directory) (nm : string) (w : World)
    (n : FSNode) (d1 : Directory) :
  childUnsync nm d = (Ok n, d1) →
  ∃ w',
    Mkdir nm d w =
      (match n with
       | IsDir D1 => (Some D1, Some ErrExist)
       | IsFile _ => (None, Some ErrExist)
       end, d1, w') ∧
    (∀ opts, MkdirWithOpts nm opts d w = Mkdir nm d w) ∧
    entriesCache d1 !! nm = Some n ∧
    unixfsDir d1 = unixfsDir d ∧
    dagService w' = dagService w ∧
    (is_Some (entriesCache d !! nm) → d1 = d) ∧
    (entriesCache d !! nm = None →
     entriesCache d1 = <[nm := n]> (entriesCache d)).
Proof.
  intros H. unfold Mkdir. rewrite (MkdirWithOpts_exists _ _ _ _ _ _ H).
  eexists. split; [reflexivity|].
  split; [intros opts; apply (MkdirWithOpts_exists _ _ _ _ _ _ H)|].
  destruct (childUnsync_ok_cached _ _ _ _ H) as (Hc & Hu & _ & _).
  split; [done|]. split; [done|]. split; [done|].
  destruct (childUnsync_cases nm d)
    as [(e & He & Hc')|[(m & Hm & Hc')|(m & Hm & Hc')]].
  - rewrite H in He. discriminate.
  - rewrite H in Hm. injection Hm as <- <-. by rewrite Hc'.
  - rewrite H in Hm. injection Hm as <- ->. rewrite Hc'. split; [|done].
    by intros [? ?].
Qed.

Lemma mkdir_existing_witness :
  ∃ d1 w',
    Mkdir "x" linkedTop w0 = ((None, Some ErrExist), d1, w') ∧
    entriesCache d1 = <["x" := IsFile (mkFile "x" fileNode)]> (entriesCache linkedTop) ∧
    unixfsDir d1 = unixfsDir linkedTop.
Proof.
  destruct (mkdir_existing linkedTop "x" w0 (IsFile (mkFile "x" fileNode))
              (cached "x" (IsFile (mkFile "x" fileNode)) linkedTop) eq_refl)
    as (w' & Hm & _ & _ & Hu & _ & _ & Hn).
  eexists _, w'. split; [exact Hm|]. split; [exact (Hn eq_refl) | exact Hu].
Defined.

(** ** Adding a child *)

(** C5 (as stated, refuted): [x] is linked to a file node and not yet
    cached; [AddChild] fails with [ErrDirExists], and the directory is not
    what it was: its cache now holds an overlay for [x]. *)
Lemma add_child_conflict_changes_cache :
  ∃ d' w',
    AddChild "x" dirNode linkedTop w0 = (Some ErrDirExists, d', w') ∧
    d' ≠ linkedTop.
Proof.
  eexists _, _. split; [reflexivity|].
  intros H. apply (f_equal (λ d, entriesCache d !! "x")) in H.
  vm_compute in H. discriminate.
Qed.

(** C5 (amended): when the name resolves, [AddChild] fails with
    [ErrDirExists]; the backing directory and the DAG service are unchanged
    and the name still resolves to the same overlay, which is cached (the
    directory is unchanged altogether when the name was cached before).
    When the name does not resolve, [AddChild] over a live context adds the
    node to the DAG service and links it under the name in the backing
    directory; the cache is unchanged, so no overlay exists for the name
    until the next lookup, which materialises it from the node. *)
Theorem add_child_conflict (d : Directory) (nm : string) (nd : Node)
    (w : World) :
  (∀ n d1, childUnsync nm d = (Ok n, d1) →
     AddChild nm nd d w = (Some ErrDirExists, d1, locked d w) ∧
     unixfsDir d1 = unixfsDir d ∧
     childUnsync nm d1 = (Ok n, d1) ∧
     (is_Some (entriesCache d !! nm) → d1 = d)) ∧
  (∀ e, (childUnsync nm d).1 = Err e → ctx d = Background →
     ∃ d' w',
       AddChild nm nd d w = (None, d', w') ∧
       dagService w' = nd :: dagService w ∧
       uio.links (unixfsDir d') = <[nm := nd]> (uio.links (unixfsDir d)) ∧
       entriesCache d' = entriesCache d ∧
       entriesCache d' !! nm = None ∧
       childUnsync nm d' = cacheNode nm nd d').
Proof.
  split.
  - intros n d1 H. unfold AddChild. rewrite H.
    destruct (childUnsync_ok_cached _ _ _ _ H) as (Hc & Hu & -> & _).
    split; [done|]. split; [done|].
    split; [by apply childUnsync_cached|].
    destruct (childUnsync_cases nm d)
      as [(e & He & Hc')|[(m & Hm & Hc')|(m & Hm & Hc')]].
    + rewrite H in He. discriminate.
    + rewrite H in Hm. by injection Hm as <- <-.
    + rewrite Hc'. by intros [? ?].
  - intros e He Hctx. unfold AddChild.
    destruct (childUnsync nm d) as [r d1] eqn:Hcu. simpl in He. subst r.
    destruct (childUnsync_err _ _ _ _ Hcu) as [-> Hnone].
    unfold DAGService_Add, uio.AddChild. rewrite Hctx. simpl.
    eexists _, _. split; [reflexivity|]. simpl.
    repeat (split; [done|]).
    unfold childUnsync, childFromDag, uio.Find. simpl.
    by rewrite Hnone, Hctx, lookup_insert_eq.
Qed.

Lemma add_child_conflict_witness :
  (∃ d1, AddChild "x" dirNode linkedTop w0 =
           (Some ErrDirExists, d1, locked linkedTop w0) ∧
         unixfsDir d1 = unixfsDir linkedTop) ∧
  (∃ d' w', AddChild "y" fileNode linkedTop w0 = (None, d', w') ∧
            dagService w' = [fileNode] ∧
            entriesCache d' !! "y" = None).
Proof.
  pose proof (add_child_conflict linkedTop "x" dirNode w0) as [Hx _].
  pose proof (add_child_conflict linkedTop "y" fileNode w0) as [_ Hy].
  split.
  - destruct (Hx _ _ eq_refl) as (Ha & Hu & _). eauto.
  - destruct (Hy ErrNotExist eq_refl eq_refl) as (d' & w' & Ha & Hd & _ & _ & Hn & _).
    eauto.
Defined.

(** A successful iteration of the loop of [cacheSync]: the state before had
    no error, the entry gave its node and the node was linked under the
    name. *)
Lemma cacheSyncStep_ok g dn c nm entry st u' cache' w' :
  cacheSyncStep g dn c nm entry st = (None, u', cache', w') →
  ∃ u cache w nd entry',
    st = (None, u, cache, w) ∧
    FSNode_GetNode g entry (emit (EvChildCall dn nm "GetNode") w)
      = (Ok nd, entry', w') ∧
    uio.AddChild c nm nd u = (None, u') ∧
    cache' = <[nm := entry']> cache.
Proof.
  destruct st as [[[err u] cache] w]. unfold cacheSyncStep.
  destruct err as [e|]; [congruence|].
  destruct (FSNode_GetNode _ _ _) as [[r entry'] w1] eqn:Hg.
  destruct r as [nd|e]; [|congruence].
  destruct (uio.AddChild c nm nd u) as [e u1] eqn:Ha.
  intros H. injection H as -> -> <- ->.
  by exists u, cache, w, nd, entry'.
Qed.

Lemma AddChild_ok c nm nd u u' :
  uio.AddChild c nm nd u = (None, u') →
  c = Background ∧ uio.links u' = <[nm := nd]> (uio.links u).
Proof.
  unfold uio.AddChild. destruct c; simpl; intros H; by simplify_eq.
Qed.

(** After a pass of the loop without error every name of the cache is
    linked in the backing directory, and no link has been lost. *)
Lemma cacheSync_loop_links g dn c (st0 : SyncState) (m : gmap string FSNode) :
  (map_fold (cacheSyncStep g dn c) st0 m).1.1.1 = None →
  st0.1.1.1 = None ∧
  ∀ k, is_Some (m !! k) ∨ is_Some (uio.links st0.1.1.2 !! k) →
       is_Some (uio.links (map_fold (cacheSyncStep g dn c) st0 m).1.1.2 !! k).
Proof.
  apply (map_fold_weak_ind
    (λ r (m : gmap string FSNode), r.1.1.1 = None →
       st0.1.1.1 = None ∧
       ∀ k, is_Some (m !! k) ∨ is_Some (uio.links st0.1.1.2 !! k) →
            is_Some (uio.links r.1.1.2 !! k))).
  - intros H. split; [done|]. intros k [Hk|Hk]; [|done].
    rewrite lookup_empty in Hk. by destruct Hk.
  - intros i x m' r Hi IH Hr.
    destruct (cacheSyncStep g dn c i x r) as [[[err u'] cache'] w'] eqn:Hs.
    simpl in Hr. subst err.
    destruct (cacheSyncStep_ok _ _ _ _ _ _ _ _ _ Hs)
      as (u & cache & w & nd & entry' & -> & _ & Ha & _).
    destruct (IH eq_refl) as [H0 IHk]. split; [done|].
    destruct (AddChild_ok _ _ _ _ _ Ha) as [_ Hl]. simpl in *.
    intros k Hk. rewrite Hl.
    destruct (decide (i = k)) as [->|Hne]; [by rewrite lookup_insert_eq|].
    rewrite lookup_insert_ne by done. apply IHk.
    by rewrite lookup_insert_ne in Hk.
Qed.

(** What a successful [getNode(true)] leaves behind. *)
Lemma getNode_true_ok d w nd d' w' :
  getNode true d w = (Ok nd, d', w') →
  entriesCache d' = ∅ ∧
  name d' = name d ∧ ctx d' = ctx d ∧ ctx d = Background ∧
  uio.GetNode (unixfsDir d') = Ok nd ∧
  nd ∈ dagService w' ∧
  ∀ k, is_Some (entriesCache d !! k) →
       is_Some (uio.links (unixfsDir d') !! k).
Proof.
  rewrite getNode_unfold. unfold cacheSyncWith.
  pose proof (cacheSync_loop_links (getNode false) (name d) (ctx d)
    (None, unixfsDir d, entriesCache d, emit (EvLock (name d)) w)
    (entriesCache d)) as Hl.
  destruct (map_fold _ _ _) as [[[err u] cache] w1]. simpl in Hl.
  destruct err as [e|]; simpl; [congruence|].
  unfold DAGService_Add. destruct (ctx d) eqn:Hc; simpl; [|congruence].
  intros H. simplify_eq. simpl. repeat (split; [done|]).
  split; [apply list_elem_of_here|].
  intros k Hk. apply Hl; auto.
Qed.

Lemma localUpdate_dag c d w r d' w' x :
  localUpdate c d w = (r, d', w') → x ∈ dagService w → x ∈ dagService w'.
Proof.
  destruct d as [n cx u cache].
  unfold localUpdate, uio.AddChild, DAGService_Add. simpl.
  destruct cx; simpl; intros H Hx; simplify_eq; simpl; [|done].
  by apply list_elem_of_further.
Qed.

(** The DAG service only grows along [updateChildEntry]. *)
Lemma updateChildEntry_dag p : ∀ c w e p' w' x,
  updateChildEntry c p w = (e, p', w') →
  x ∈ dagService w → x ∈ dagService w'.
Proof.
  induction p as [r|d up IH]; intros c w e p' w' x; simpl.
  - unfold Root_updateChildEntry. destruct (String.eqb _ _); intros H Hx;
      by simplify_eq.
  - destruct (localUpdate c d w) as [[res d1] w1] eqn:Hl.
    pose proof (localUpdate_dag _ _ _ _ _ _ x Hl) as Hm.
    destruct res as [nd|err]; [|intros H Hx; simplify_eq; auto].
    destruct (updateChildEntry _ up _) as [[e2 up'] w2] eqn:Hu.
    intros H Hx. simplify_eq. eapply IH; [exact Hu|]. simpl. auto.
Qed.

(** ** Flush *)



(** C8: when [getNode(true)] succeeds, calling it again at once succeeds
    too and returns a node with the same CID; the directory is left as it
    was after the first call. *)
Theorem getNode_clean_twice (d : Directory) (w : World)
    (nd1 : Node) (d1 : Directory) (w1 : World) :
  getNode true d w = (Ok nd1, d1, w1) →
  ∃ nd2 w2,
    getNode true d1 w1 = (Ok nd2, d1, w2) ∧
    Node_Cid nd2 = Node_Cid nd1.
Proof.
  intros H.
  destruct (getNode_true_ok _ _ _ _ _ H) as (Hc & _ & Hctx & Hb & Hn & _).
  rewrite Hb in Hctx.
  destruct (getNode_empty true d1 w1 Hc Hctx) as (nd2 & Hn2 & Hg).
  exists nd2. eexists. split; [exact Hg|]. congruence.
Qed.

Lemma getNode_clean_twice_witness :
  ∃ nd1 d1 w1 nd2 w2,
    getNode true pendingTop w0 = (Ok nd1, d1, w1) ∧
    getNode true d1 w1 = (Ok nd2, d1, w2) ∧
    Node_Cid nd2 = Node_Cid nd1.
Proof.
  eexists _, _, _.
  destruct (getNode_clean_twice pendingTop w0 _ _ _ eq_refl)
    as (nd2 & w2 & Hg & Hcid).
  exists nd2, w2. split; [reflexivity|]. split; [exact Hg | exact Hcid].
Defined.

(** ** Induction on the tree of overlays *)

Lemma dsize_child (m : gmap string FSNode) k c :
  m !! k = Some (IsDir c) →
  (dsize c ≤ map_fold (λ _ e acc, match e with
                                  | IsDir c => dsize c + acc
                                  | IsFile _ => acc
                                  end) 0 m)%nat.
Proof.
  revert k c.
  apply (map_fold_weak_ind
    (λ r (m : gmap string FSNode),
       ∀ k c, m !! k = Some (IsDir c) → (dsize c ≤ r)%nat)).
  - intros k c H. by rewrite lookup_empty in H.
  - intros i x m' r Hi IH k c H.
    destruct (decide (i = k)) as [->|Hne].
    + rewrite lookup_insert_eq in H. injection H as ->. lia.
    + rewrite lookup_insert_ne in H by done.
      specialize (IH _ _ H). destruct x; lia.
Qed.

(** A property holds of every directory overlay when it holds of a
    directory as soon as it holds of the directories in its cache. *)
Lemma Directory_cache_ind (P : Directory → Prop) :
  (∀ d, (∀ k c, entriesCache d !! k = Some (IsDir c) → P c) → P d) →
  ∀ d, P d.
Proof.
  intros Hstep d. remember (dsize d) as n eqn:Hn.
  revert d Hn. induction n as [n IH] using lt_wf_ind. intros d ->.
  apply Hstep. intros k c Hc. apply (IH (dsize c)); [|done].
  pose proof (dsize_child _ _ _ Hc). destruct d; simpl in *. lia.
Qed.

(** ** The order of locks *)

Lemma lock_order_app h t1 t2 :
  lock_order h (t1 ++ t2) =
    match lock_order h t1 with
    | Some h' => lock_order h' t2
    | None => None
    end.
Proof.
  revert h. induction t1 as [|ev t1 IH]; intros h; simpl; [done|].
  destruct ev as [n|n|d c m|n]; simpl; try apply IH.
  - destruct h as [|x h]; [done|]. by destruct (String.eqb x n).
  - destruct h as [|x h]; [done|]. by destruct (String.eqb x d).
  - by destruct h.
Qed.

Lemma segment_refl h w : segment h h w w.
Proof. exists []. by rewrite app_nil_r. Qed.

Lemma segment_trans h1 h2 h3 w1 w2 w3 :
  segment h1 h2 w1 w2 → segment h2 h3 w2 w3 → segment h1 h3 w1 w3.
Proof.
  intros (δ1 & E1 & L1) (δ2 & E2 & L2). exists (δ1 ++ δ2)%list. split.
  - by rewrite E2, E1, app_assoc.
  - by rewrite lock_order_app, L1.
Qed.

Lemma segment_lock n h w : segment h (n :: h) w (emit (EvLock n) w).
Proof. by exists [EvLock n]. Qed.

Lemma segment_unlock n h w : segment (n :: h) h w (emit (EvUnlock n) w).
Proof. exists [EvUnlock n]. simpl. by rewrite String.eqb_refl. Qed.

Lemma segment_child n k m h w :
  segment (n :: h) (n :: h) w (emit (EvChildCall n k m) w).
Proof. exists [EvChildCall n k m]. simpl. by rewrite String.eqb_refl. Qed.

Lemma segment_parent n w : segment [] [] w (emit (EvParentCall n) w).
Proof. by exists [EvParentCall n]. Qed.

Lemma segment_Add h c nd w :
  segment h h w (DAGService_Add c nd w).2.
Proof.
  unfold DAGService_Add. destruct (ctxErr c); [apply segment_refl|].
  exists []. simpl. by rewrite app_nil_r.
Qed.



Lemma FSNode_GetNode_segment g entry w h :
  (∀ c, entry = IsDir c → keeps_locks g c) →
  segment h h w (FSNode_GetNode g entry w).2.
Proof.
  intros Hg. destruct entry as [c|fi]; simpl; [|apply segment_refl].
  specialize (Hg c eq_refl w h). by destruct (g c w) as [[r c'] w'].
Qed.

Lemma cacheSyncStep_segment g n cx k entry (st : SyncState) h :
  (∀ c, entry = IsDir c → keeps_locks g c) →
  segment (n :: h) (n :: h) st.2 (cacheSyncStep g n cx k entry st).2.
Proof.
  intros Hg. destruct st as [[[err u] cache] w]. unfold cacheSyncStep.
  destruct err as [e|]; [apply segment_refl|].
  pose proof (FSNode_GetNode_segment g entry
                (emit (EvChildCall n k "GetNode") w) (n :: h) Hg) as Hs.
  destruct (FSNode_GetNode _ _ _) as [[r entry'] w1]. simpl in *.
  assert (segment (n :: h) (n :: h) w w1) as Hw
    by (eapply segment_trans; [apply segment_child | exact Hs]).
  destruct r as [nd|e]; [|done].
  by destruct (uio.AddChild cx k nd u).
Qed.

Lemma cacheSync_loop_segment g n cx (st0 : SyncState)
    (m : gmap string FSNode) h :
  (∀ k c, m !! k = Some (IsDir c) → keeps_locks g c) →
  segment (n :: h) (n :: h) st0.2 (map_fold (cacheSyncStep g n cx) st0 m).2.
Proof.
  apply (map_fold_weak_ind
    (λ (r : SyncState) (m : gmap string FSNode),
       (∀ k c, m !! k = Some (IsDir c) → keeps_locks g c) →
       segment (n :: h) (n :: h) st0.2 r.2)).
  - intros _. apply segment_refl.
  - intros i x m' r Hi IH Hm. eapply segment_trans.
    + apply IH. intros k c Hk. apply (Hm k).
      rewrite lookup_insert_ne; [done|]. intros ->. congruence.
    + apply cacheSyncStep_segment. intros c ->. apply (Hm i).
      by rewrite lookup_insert_eq.
Qed.

Lemma cacheSyncWith_segment g clean d w h :
  (∀ k c, entriesCache d !! k = Some (IsDir c) → keeps_locks g c) →
  segment (name d :: h) (name d :: h) w (cacheSyncWith g clean d w).2 ∧
  name (cacheSyncWith g clean d w).1.2 = name d.
Proof.
  intros Hm. unfold cacheSyncWith.
  pose proof (cacheSync_loop_segment g (name d) (ctx d)
                (None, unixfsDir d, entriesCache d, w) (entriesCache d) h Hm)
    as Hs.
  destruct (map_fold _ _ _) as [[[err u] cache] w1]. simpl in Hs.
  by destruct err.
Qed.

Lemma getNodeTail_segment err d w h :
  segment (name d :: h) h w (getNodeTail err d w).2.
Proof.
  unfold getNodeTail. destruct err as [e|]; [apply segment_unlock|]. simpl.
  pose proof (segment_Add (name d :: h) (ctx d)
    (ProtoNode
       (Some (ft.mkFSNode (if uio.sharded (unixfsDir d) then ft.THAMTShard
                           else ft.TDirectory)
                          (uio.mode (unixfsDir d))
                          (uio.modTime (unixfsDir d)) 0))
       (uio.links (unixfsDir d)) (uio.cidBuilder (unixfsDir d))) w) as Hs.
  destruct (DAGService_Add _ _ _) as [e w1]. simpl in Hs.
  destruct e; simpl; (eapply segment_trans; [exact Hs|apply segment_unlock]).
Qed.

(** [getNode] takes the lock of the directory, calls [GetNode] on the
    cached children while it holds it, and releases it before it returns. *)
Lemma getNode_segment d : ∀ clean, keeps_locks (getNode clean) d.
Proof.
  induction d as [d IH] using Directory_cache_ind. intros clean w h.
  rewrite getNode_unfold.
  destruct (cacheSyncWith_segment (getNode false) clean d
              (emit (EvLock (name d)) w) h) as [Hs Hn].
  { intros k c Hc. by apply (IH k c). }
  destruct (cacheSyncWith _ _ _ _) as [[err d1] w1]. simpl in Hs, Hn.
  eapply segment_trans; [apply segment_lock|].
  eapply segment_trans; [exact Hs|]. rewrite <- Hn.
  apply getNodeTail_segment.
Qed.

Lemma localUpdate_segment c d w h :
  segment h h w (localUpdate c d w).2 ∧ name (localUpdate c d w).1.2 = name d.
Proof.
  destruct d as [n cx u cache]. unfold localUpdate. simpl.
  destruct (uio.AddChild cx (Name c) (Node_ c) u) as [err u1]. simpl.
  destruct err as [e|]; simpl.
  { split; [|done].
    eapply segment_trans; [apply segment_lock | apply segment_unlock]. }
  match goal with
  | |- context [DAGService_Add cx ?nd ?w0] =>
      pose proof (segment_Add (n :: h) cx nd w0) as Hs;
      destruct (DAGService_Add cx nd w0) as [e w1]
  end.
  simpl in Hs.
  assert (segment h h w (emit (EvUnlock n) w1)) as Hw.
  { eapply segment_trans; [apply segment_lock|].
    eapply segment_trans; [exact Hs | apply segment_unlock]. }
  by destruct e.
Qed.

(** [updateChildEntry] releases the lock of each ancestor before it calls
    the next one. *)
Lemma updateChildEntry_segment p : ∀ c w,
  segment [] [] w (updateChildEntry c p w).2.
Proof.
  induction p as [r|d up IH]; intros c w; simpl.
  - unfold Root_updateChildEntry. destruct (String.eqb _ _); apply segment_refl.
  - destruct (localUpdate_segment c d w []) as [Hs _].
    destruct (localUpdate c d w) as [[res d1] w1]. simpl in Hs.
    destruct res as [nd|e]; [|done].
    specialize (IH (mkchild (name d1) nd) (emit (EvParentCall (name d1)) w1)).
    destruct (updateChildEntry _ up _) as [[e up'] w2]. simpl in *.
    eapply segment_trans; [exact Hs|].
    eapply segment_trans; [apply segment_parent | exact IH].
Qed.

Lemma Flush_segment d p w : segment [] [] w (Flush d p w).2.
Proof.
  unfold Flush. pose proof (getNode_segment d true w []) as Hg.
  destruct (getNode true d w) as [[res d1] w1]. simpl in Hg.
  destruct res as [nd|e]; [|done].
  pose proof (updateChildEntry_segment p (mkchild (name d1) nd)
                (emit (EvParentCall (name d1)) w1)) as Hu.
  destruct (updateChildEntry _ p _) as [[e p'] w2]. simpl in *.
  eapply segment_trans; [exact Hg|].
  eapply segment_trans; [apply segment_parent | exact Hu].
Qed.

Lemma childUnsync_name nm d : name (childUnsync nm d).2 = name d.
Proof.
  destruct (childUnsync_cases nm d)
    as [(e & -> & _)|[(m & -> & _)|(m & -> & _)]]; done.
Qed.

Lemma NewEmptyDirectory_segment c nm opts w h :
  segment h h w (NewEmptyDirectory c nm opts w).2.
Proof.
  unfold NewEmptyDirectory, uio.NewDirectory. simpl.
  match goal with
  | |- context [DAGService_Add c ?nd w] =>
      pose proof (segment_Add h c nd w) as Hs;
      destruct (DAGService_Add c nd w) as [e w1]
  end.
  by destruct e.
Qed.

Lemma MkdirWithOpts_segment nm opts d w h :
  segment h h w (MkdirWithOpts nm opts d w).2.
Proof.
  unfold MkdirWithOpts. pose proof (childUnsync_name nm d) as Hn.
  destruct (childUnsync nm d) as [fsn d1]. simpl in Hn. rewrite <- Hn.
  assert (∀ w', segment (name d1 :: h) (name d1 :: h)
                  (emit (EvLock (name d1)) w) w' →
                segment h h w (emit (EvUnlock (name d1)) w')) as Hclose.
  { intros w' Hs. eapply segment_trans; [apply segment_lock|].
    eapply segment_trans; [exact Hs | apply segment_unlock]. }
  destruct fsn as [[c|fi]|e]; try (apply Hclose, segment_refl).
  pose proof (NewEmptyDirectory_segment (ctx d1) nm
                (set_CidBuilder (GetCidBuilder d1) opts)
                (emit (EvLock (name d1)) w) (name d1 :: h)) as Hs.
  destruct (NewEmptyDirectory _ _ _ _) as [r w1]. simpl in Hs.
  destruct r as [dirobj|e']; [|by apply Hclose].
  pose proof (getNode_segment dirobj false
                (emit (EvChildCall (name d1) nm "GetNode") w1)
                (name d1 :: h)) as Hg.
  unfold GetNode. destruct (getNode false dirobj _) as [[r dirobj'] w2].
  simpl in Hg.
  assert (segment (name d1 :: h) (name d1 :: h)
            (emit (EvLock (name d1)) w) w2) as Hw.
  { eapply segment_trans; [exact Hs|].
    eapply segment_trans; [apply segment_child | exact Hg]. }
  destruct r as [ndir|e']; [|by apply Hclose].
  destruct (uio.AddChild _ _ _ _) as [e' u]. simpl.
  destruct e'; by apply Hclose.
Qed.

Lemma forEachEntryStep_segment {A} (f : NodeListing → A → option error * A)
    l d w a h :
  segment (name d :: h) (name d :: h) w (forEachEntryStep f l (d, w, a)).2.1.2 ∧
  name (forEachEntryStep f l (d, w, a)).2.1.1 = name d.
Proof.
  unfold forEachEntryStep. pose proof (childUnsync_name l.1 d) as Hn.
  destruct (childUnsync l.1 d) as [r d1]. simpl in Hn. rewrite <- Hn.
  destruct r as [c|e]; [|split; [apply segment_refl|done]].
  pose proof (FSNode_GetNode_segment GetNode c
                (emit (EvChildCall (name d1) l.1 "GetNode") w)
                (name d1 :: h)) as Hg.
  destruct (FSNode_GetNode _ _ _) as [[r c'] w1]. simpl in Hg.
  assert (segment (name d1 :: h) (name d1 :: h) w w1) as Hw.
  { eapply segment_trans; [apply segment_child|]. apply Hg.
    intros ch _. apply getNode_segment. }
  destruct r as [nd|e]; [|done]. simpl.
  assert (segment (name d1 :: h) (name d1 :: h) w
            (emit (EvChildCall (name d1) l.1 "Type") w1)) as Hw2
    by (eapply segment_trans; [exact Hw | apply segment_child]).
  destruct c' as [ch|fi].
  - destruct (f _ a) as [e a']. done.
  - assert (segment (name d1 :: h) (name d1 :: h) w
              (emit (EvChildCall (name d1) l.1 "Size")
                 (emit (EvChildCall (name d1) l.1 "Type") w1))) as Hw3
      by (eapply segment_trans; [exact Hw2 | apply segment_child]).
    destruct (File_Size fi) as [size|e]; [|done].
    destruct (f _ a) as [e a']. done.
Qed.

Lemma ForEachEntry_segment {A} c (f : NodeListing → A → option error * A)
    d w a h :
  segment h h w (ForEachEntry c f d w a).1.2.
Proof.
  unfold ForEachEntry, uio.ForEachLink.
  assert (∀ (ls : list (string * Node)) e d1 w1 a1,
            name d1 = name d →
            segment (name d :: h) (name d :: h) (emit (EvLock (name d)) w) w1 →
            let r := fold_left
                       (λ acc l, match acc with
                                 | (Some _, _) => acc
                                 | (None, s) => forEachEntryStep f l s
                                 end) ls (e, (d1, w1, a1)) in
            name r.2.1.1 = name d ∧
            segment (name d :: h) (name d :: h)
              (emit (EvLock (name d)) w) r.2.1.2) as Hfold.
  { induction ls as [|l ls IH]; intros e d1 w1 a1 Hn Hs; [done|].
    cbn [fold_left]. destruct e as [e|]; [by apply IH|].
    destruct (forEachEntryStep_segment f l d1 w1 a1 h) as [Hs1 Hn1].
    destruct (forEachEntryStep f l (d1, w1, a1)) as [e' [[d2 w2] a2]].
    cbn [fst snd] in Hs1, Hn1. apply IH; [congruence|].
    eapply segment_trans; [exact Hs|]. by rewrite <- Hn. }
  destruct (ctxErr c) as [e|].
  - simpl. eapply segment_trans; [apply segment_lock | apply segment_unlock].
  - specialize (Hfold (uio.Links (unixfsDir d)) None d
                  (emit (EvLock (name d)) w) a eq_refl (segment_refl _ _)).
    simpl in Hfold.
    destruct (fold_left _ _ _) as [e [[d2 w2] a2]]. simpl in *.
    destruct Hfold as [Hn Hs]. rewrite Hn.
    eapply segment_trans; [apply segment_lock|].
    eapply segment_trans; [exact Hs | apply segment_unlock].
Qed.


Lemma simple_ops_segment d w h :
  (∀ nm, segment h h w (Child nm d w).2) ∧
  (∀ nm, segment h h w (Uncache nm d w).2) ∧
  (∀ nm, segment h h w (Unlink nm d w).2) ∧
  (∀ nm nd, segment h h w (AddChild nm nd d w).2) ∧
  (∀ c, segment h h w (ListNames c d w).2).
Proof.
  assert (∀ n, segment h h w (emit (EvUnlock n) (emit (EvLock n) w))) as Hlu.
  { intros n. eapply segment_trans; [apply segment_lock|apply segment_unlock]. }
  repeat split.
  - intros nm. rewrite Child_eq. apply Hlu.
  - intros nm. apply Hlu.
  - intros nm. rewrite Unlink_eq. apply Hlu.
  - intros nm nd. unfold AddChild. pose proof (childUnsync_name nm d) as Hn.
    destruct (childUnsync nm d) as [r d1]. simpl in Hn. rewrite <- Hn.
    destruct r as [n|e]; [apply Hlu|].
    pose proof (segment_Add (name d1 :: h) (ctx d1) nd
                  (emit (EvLock (name d1)) w)) as Hs.
    destruct (DAGService_Add _ _ _) as [e' w1]. simpl in Hs.
    assert (segment h h w (emit (EvUnlock (name d1)) w1)) as Hw.
    { eapply segment_trans; [apply segment_lock|].
      eapply segment_trans; [exact Hs | apply segment_unlock]. }
    destruct e'; [done|]. by destruct (uio.AddChild _ _ _ _).
  - intros c. unfold ListNames.
    destruct (uio.ForEachLink _ _ _ _) as [e out]. destruct e; apply Hlu.
Qed.

Lemma segment_quiet dag w' :
  segment [] [] (quiet dag) w' → lock_order [] (events w') = Some [].
Proof. intros (δ & E & L). simpl in E. by rewrite E. Qed.

(** C9 (as stated, refuted): [GetNode] on a directory whose cache holds the
    file overlay [f] calls [f.GetNode()] between taking and releasing the
    lock of the directory. *)
Lemma child_called_under_lock :
  events (GetNode pendingTop w0).2 =
    [EvLock "r"; EvChildCall "r" "f" "GetNode"; EvUnlock "r"] ∧
  child_calls_unlocked [] (events (GetNode pendingTop w0).2) = false.
Proof. split; reflexivity. Qed.

(** The log of [Flush] on a directory that caches the directory [a], which
    caches the file [f]: the locks nest from parent to child, and the
    parent is called after the last lock is released. *)
Example flush_nested_log :
  events (Flush nestedTop topRoot w0).2 =
    [EvLock "r"; EvChildCall "r" "a" "GetNode";
     EvLock "a"; EvChildCall "a" "f" "GetNode"; EvUnlock "a";
     EvUnlock "r"; EvParentCall "r"].
Proof. reflexivity. Qed.



(** * More on lookup, creation and removal *)

(** X1: a successful [Child] is stable: the overlay it returns is cached,
    so asking again returns the same overlay and changes nothing, and the
    backing directory is not written.  A failed [Child] leaves the
    directory as it was, with nothing cached under the name. *)
Theorem child_stable (d : Directory) (nm : string) (w : World)
    (r : result FSNode) (d1 : Directory) (w1 : World) :
  Child nm d w = (r, d1, w1) →
  match r with
  | Ok e =>
      unixfsDir d1 = unixfsDir d ∧
      ∀ w2, Child nm d1 w2 = (Ok e, d1, locked d1 w2)
  | Err _ => d1 = d ∧ entriesCache d !! nm = None
  end.
Proof.
  rewrite Child_eq. destruct (childUnsync nm d) as [r' d'] eqn:Hcu.
  simpl. intros H. injection H as -> -> _.
  destruct r as [e|err].
  - destruct (childUnsync_ok_cached _ _ _ _ Hcu) as (Hc & Hu & _ & _).
    split; [done|]. intros w2.
    by rewrite Child_eq, (childUnsync_cached _ _ _ Hc).
  - by apply (childUnsync_err _ _ _ _ Hcu).
Qed.

Lemma child_stable_witness :
  ∃ e d1,
    (Child "a" linkedTop w0).1 = (Ok e, d1) ∧
    Child "a" d1 w0 = (Ok e, d1, locked d1 w0).
Proof.
  eexists _, _. split; [reflexivity|].
  exact (proj2 (child_stable linkedTop "a" w0 _ _ _ eq_refl) w0).
Defined.

(** What a successful [MkdirWithOpts] leaves behind. *)
Lemma MkdirWithOpts_ok nm opts d w dirobj d' w' :
  MkdirWithOpts nm opts d w = ((Some dirobj, None), d', w') →
  entriesCache d !! nm = None ∧
  ctx d = Background ∧
  dirobj = freshDirOf d nm opts ∧
  d' = mkDirectory (name d) (ctx d)
         (uio.set_links
            (<[nm := emptyDirNode (Mode opts) (ModTime opts) (GetCidBuilder d)]>
               (uio.links (unixfsDir d))) (unixfsDir d))
         (<[nm := IsDir dirobj]> (entriesCache d)).
Proof.
  unfold MkdirWithOpts.
  destruct (childUnsync nm d) as [r d1] eqn:Hcu.
  destruct r as [[c|fi]|e]; [congruence|congruence|].
  destruct (childUnsync_err _ _ _ _ Hcu) as [-> Hnone].
  destruct d as [n cx u cache]. simpl in *.
  unfold NewEmptyDirectory, uio.NewDirectory, DAGService_Add. simpl.
  destruct cx; simpl; [|congruence].
  unfold GetNode.
  match goal with
  | |- context [getNode false ?x ?y] =>
      destruct (getNode_empty false x y eq_refl eq_refl) as (nd & Hnd & ->)
  end.
  unfold uio.GetNode in Hnd. simpl in Hnd. injection Hnd as <-. simpl.
  intros H. by injection H as <- <- _.
Qed.

(** X2: the overlay a successful [MkdirWithOpts] returns is the one a
    later [Child] returns, and creating the name again returns that same
    overlay together with [ErrExist], without changing the directory. *)
Theorem mkdir_then_lookup (d : Directory) (nm : string) (opts : MkdirOpts)
    (w : World) (dirobj d' : Directory) (w' : World) :
  MkdirWithOpts nm opts d w = ((Some dirobj, None), d', w') →
  ∀ w2,
    Child nm d' w2 = (Ok (IsDir dirobj), d', locked d' w2) ∧
    (∀ opts2, MkdirWithOpts nm opts2 d' w2 =
                ((Some dirobj, Some ErrExist), d', locked d' w2)) ∧
    Mkdir nm d' w2 = ((Some dirobj, Some ErrExist), d', locked d' w2).
Proof.
  intros H w2.
  destruct (MkdirWithOpts_ok _ _ _ _ _ _ _ H) as (_ & _ & _ & ->).
  assert (childUnsync nm
            (mkDirectory (name d) (ctx d)
               (uio.set_links
                  (<[nm := emptyDirNode (Mode opts) (ModTime opts)
                             (GetCidBuilder d)]> (uio.links (unixfsDir d)))
                  (unixfsDir d))
               (<[nm := IsDir dirobj]> (entriesCache d)))
          = (Ok (IsDir dirobj),
             mkDirectory (name d) (ctx d)
               (uio.set_links
                  (<[nm := emptyDirNode (Mode opts) (ModTime opts)
                             (GetCidBuilder d)]> (uio.links (unixfsDir d)))
                  (unixfsDir d))
               (<[nm := IsDir dirobj]> (entriesCache d)))) as Hcu.
  { apply childUnsync_cached. simpl. apply lookup_insert_eq. }
  split; [by rewrite Child_eq, Hcu|].
  split; [intros opts2|unfold Mkdir];
    by rewrite (MkdirWithOpts_exists _ _ _ _ _ _ Hcu).
Qed.

Lemma mkdir_then_lookup_witness :
  ∃ dirobj d',
    (MkdirWithOpts "a" (mkMkdirOpts 3 4 493 0 9%nat) emptyTop w0).1
      = ((Some dirobj, None), d') ∧
    Mkdir "a" d' w0 = ((Some dirobj, Some ErrExist), d', locked d' w0).
Proof.
  eexists _, _. split; [reflexivity|].
  exact (proj2 (proj2 (mkdir_then_lookup emptyTop "a"
                         (mkMkdirOpts 3 4 493 0 9%nat) w0 _ _ _ eq_refl w0))).
Defined.


(** What a successful [AddChild] leaves behind. *)
Lemma AddChild_ok_inv nm nd d w d' w' :
  AddChild nm nd d w = (None, d', w') →
  entriesCache d !! nm = None ∧
  ctx d = Background ∧
  dagService w' = nd :: dagService w ∧
  d' = mkDirectory (name d) (ctx d)
         (uio.set_links (<[nm := nd]> (uio.links (unixfsDir d))) (unixfsDir d))
         (entriesCache d).
Proof.
  unfold AddChild. destruct (childUnsync nm d) as [r d1] eqn:Hcu.
  destruct r as [n|e]; [congruence|].
  destruct (childUnsync_err _ _ _ _ Hcu) as [-> Hnone].
  destruct d as [n cx u cache]. simpl in *.
  unfold DAGService_Add, uio.AddChild. destruct cx; simpl; [|congruence].
  intros H. by injection H as <- <-.
Qed.

(** X3: creating a name that is neither cached nor linked and unlinking it
    again restores the directory exactly, for [MkdirWithOpts] as for
    [AddChild]. *)
Theorem create_unlink_roundtrip (d : Directory) (nm : string) (w : World) :
  entriesCache d !! nm = None →
  uio.links (unixfsDir d) !! nm = None →
  ctx d = Background →
  (∀ opts, ∃ dirobj d' w',
     MkdirWithOpts nm opts d w = ((Some dirobj, None), d', w') ∧
     ∀ w2, Unlink nm d' w2 = (None, d, locked d w2)) ∧
  (∀ nd, ∃ d' w',
     AddChild nm nd d w = (None, d', w') ∧
     ∀ w2, Unlink nm d' w2 = (None, d, locked d w2)).
Proof.
  intros Hc Hl Hctx.
  assert (childUnsync nm d = (Err ErrNotExist, d)) as Hcu.
  { rewrite (childUnsync_uncached _ _ Hc). unfold uio.Find.
    by rewrite Hctx, Hl. }
  assert (∀ (u' : gmap string Node) (c' : gmap string FSNode) w2,
            delete nm u' = uio.links (unixfsDir d) →
            delete nm c' = entriesCache d →
            Unlink nm (mkDirectory (name d) (ctx d)
                         (uio.set_links u' (unixfsDir d)) c') w2
              = (None, d, locked d w2)) as Hun.
  { clear Hcu Hc Hl. destruct d as [n cx [l ml mf b md mt sh] cache].
    simpl in *. subst cx. intros u' c' w2 Hu' Hc'. rewrite Unlink_eq. simpl.
    unfold uio.set_links. simpl. by rewrite Hu', Hc'. }
  split.
  - intros opts.
    destruct (MkdirWithOpts nm opts d w) as [[[dirobj e] d'] w'] eqn:Hm.
    assert (e = None ∧ ∃ x, dirobj = Some x) as [-> [x ->]].
    { revert Hm. unfold MkdirWithOpts. rewrite Hcu.
      unfold NewEmptyDirectory, uio.NewDirectory, DAGService_Add. simpl.
      rewrite Hctx. simpl. unfold GetNode.
      match goal with
      | |- context [getNode false ?x ?y] =>
          destruct (getNode_empty false x y eq_refl eq_refl)
            as (nd & Hnd & ->)
      end.
      unfold uio.AddChild. rewrite ?Hctx. simpl. intros H.
      injection H as <- <- _ _. eauto. }
    destruct (MkdirWithOpts_ok _ _ _ _ _ _ _ Hm) as (_ & _ & _ & ->).
    eexists _, _, _. split; [done|]. intros w2.
    apply Hun; by apply delete_insert_id.
  - intros nd.
    destruct (AddChild nm nd d w) as [[e d'] w'] eqn:Ha.
    assert (e = None) as ->.
    { revert Ha. unfold AddChild. rewrite Hcu.
      unfold DAGService_Add, uio.AddChild. rewrite Hctx. simpl.
      intros H. by injection H as <- _ _. }
    destruct (AddChild_ok_inv _ _ _ _ _ _ Ha) as (_ & _ & _ & ->).
    eexists _, _. split; [done|]. intros w2.
    apply Hun; [by apply delete_insert_id | by apply delete_id].
Qed.

Lemma create_unlink_roundtrip_witness :
  ∃ dirobj d' w',
    MkdirWithOpts "b" (mkMkdirOpts 3 4 493 0 9%nat) linkedTop w0
      = ((Some dirobj, None), d', w') ∧
    Unlink "b" d' w0 = (None, linkedTop, locked linkedTop w0).
Proof.
  destruct (proj1 (create_unlink_roundtrip linkedTop "b" w0
                     eq_refl eq_refl eq_refl) (mkMkdirOpts 3 4 493 0 9%nat))
    as (dirobj & d' & w' & Hm & Hu).
  exists dirobj, d', w'. split; [exact Hm | exact (Hu w0)].
Defined.

(** X4: the existence check of [AddChild] and [MkdirWithOpts] is the
    lookup itself, so a name that is linked to a node the lookup cannot
    materialise counts as free: over a live context both replace the link
    and return no error. *)
Theorem create_replaces_unresolvable (d : Directory) (nm : string)
    (old : Node) (e : error) (w : World) :
  entriesCache d !! nm = None →
  uio.links (unixfsDir d) !! nm = Some old →
  (cacheNode nm old d).1 = Err e →
  ctx d = Background →
  (∀ nd, ∃ d' w',
     AddChild nm nd d w = (None, d', w') ∧
     uio.links (unixfsDir d') !! nm = Some nd) ∧
  (∀ opts, ∃ dirobj d' w',
     MkdirWithOpts nm opts d w = ((Some dirobj, None), d', w') ∧
     uio.links (unixfsDir d') !! nm =
       Some (emptyDirNode (Mode opts) (ModTime opts) (GetCidBuilder d))).
Proof.
  intros Hc Hl Hcn Hctx.
  assert (childUnsync nm d = (Err e, d)) as Hcu.
  { rewrite (childUnsync_uncached _ _ Hc). unfold uio.Find.
    rewrite Hctx, Hl. simpl.
    destruct (cacheNode_cases nm old d) as [[e' He]|[n Hn]];
      rewrite ?He, ?Hn in Hcn |- *; simpl in Hcn; congruence. }
  split.
  - intros nd. unfold AddChild. rewrite Hcu.
    unfold DAGService_Add, uio.AddChild. rewrite Hctx. simpl.
    eexists _, _. split; [reflexivity|]. simpl. apply lookup_insert_eq.
  - intros opts. unfold MkdirWithOpts. rewrite Hcu.
    unfold NewEmptyDirectory, uio.NewDirectory, DAGService_Add. simpl.
    rewrite Hctx. simpl. unfold GetNode.
    match goal with
    | |- context [getNode false ?x ?y] =>
        destruct (getNode_empty false x y eq_refl eq_refl) as (nd & Hnd & ->)
    end.
    unfold uio.GetNode in Hnd. simpl in Hnd. injection Hnd as <-.
    unfold uio.AddChild. rewrite ?Hctx. simpl.
    eexists _, _, _. split; [reflexivity|]. simpl. apply lookup_insert_eq.
Qed.

Lemma create_replaces_unresolvable_witness :
  uio.links (unixfsDir metadataTop) !! "m" = Some metadataNode ∧
  ∃ d' w',
    AddChild "m" fileNode metadataTop w0 = (None, d', w') ∧
    uio.links (unixfsDir d') !! "m" = Some fileNode.
Proof.
  split; [reflexivity|].
  exact (proj1 (create_replaces_unresolvable metadataTop "m" metadataNode
                  ErrNotYetImplemented w0 eq_refl eq_refl eq_refl eq_refl)
               fileNode).
Defined.

(** X5: after a successful [AddChild] of a node the lookup can
    materialise, a second [AddChild] under the same name fails with
    [ErrDirExists] and the name still resolves to the first node. *)
Theorem add_child_twice (d : Directory) (nm : string) (nd : Node)
    (w : World) (d' : Directory) (w' : World) (n : FSNode) :
  AddChild nm nd d w = (None, d', w') →
  (cacheNode nm nd d').1 = Ok n →
  ∀ nd2 w2,
    AddChild nm nd2 d' w2 = (Some ErrDirExists, cached nm n d', locked d' w2) ∧
    uio.links (unixfsDir (cached nm n d')) !! nm = Some nd ∧
    childUnsync nm (cached nm n d') = (Ok n, cached nm n d').
Proof.
  intros Ha Hn nd2 w2.
  destruct (AddChild_ok_inv _ _ _ _ _ _ Ha) as (Hc & Hctx & _ & Hd').
  assert (childUnsync nm d' = (Ok n, cached nm n d')) as Hcu.
  { rewrite childUnsync_uncached by (subst d'; exact Hc).
    assert (uio.Find (ctx d') nm (unixfsDir d') = Ok nd) as ->.
    { subst d'. unfold uio.Find. simpl. by rewrite Hctx, lookup_insert_eq. }
    destruct (cacheNode_cases nm nd d') as [[e He]|[m Hm]];
      rewrite ?He, ?Hm in Hn |- *; simpl in Hn; congruence. }
  split.
  - unfold AddChild. rewrite Hcu. by destruct d'.
  - split.
    + subst d'. simpl. apply lookup_insert_eq.
    + apply childUnsync_cached. simpl. apply lookup_insert_eq.
Qed.

Lemma add_child_twice_witness :
  ∃ d' n,
    (AddChild "y" fileNode linkedTop w0).1 = (None, d') ∧
    AddChild "y" dirNode d' w0 =
      (Some ErrDirExists, cached "y" n d', locked d' w0) ∧
    uio.links (unixfsDir (cached "y" n d')) !! "y" = Some fileNode.
Proof.
  eexists _, (IsFile (mkFile "y" fileNode)). split; [reflexivity|].
  destruct (add_child_twice linkedTop "y" fileNode w0 _ _
              (IsFile (mkFile "y" fileNode)) eq_refl eq_refl dirNode w0)
    as (H1 & H2 & _).
  split; [exact H1 | exact H2].
Defined.

(** X6: after a successful [Unlink] the name is neither cached nor linked,
    whatever was there before, so [Child] fails with [ErrNotExist]; the
    other names are as they were. *)
Theorem unlink_then_lookup (d : Directory) (nm : string) (w : World)
    (d' : Directory) (w' : World) :
  Unlink nm d w = (None, d', w') →
  entriesCache d' = delete nm (entriesCache d) ∧
  uio.links (unixfsDir d') = delete nm (uio.links (unixfsDir d)) ∧
  dagService w' = dagService w ∧
  ∀ w2, Child nm d' w2 = (Err ErrNotExist, d', locked d' w2).
Proof.
  rewrite Unlink_eq. unfold uio.RemoveChild.
  destruct (ctx d) eqn:Hctx; simpl; [|congruence].
  intros H. injection H as <- <-. simpl.
  split; [done|]. split; [done|]. split; [done|]. intros w2.
  rewrite Child_eq, childUnsync_uncached by (simpl; apply lookup_delete_eq).
  unfold uio.Find. simpl. by rewrite lookup_delete_eq.
Qed.

Lemma unlink_then_lookup_witness :
  ∃ d',
    (Unlink "f" pendingTop w0).1 = (None, d') ∧
    Child "f" d' w0 = (Err ErrNotExist, d', locked d' w0).
Proof.
  eexists. split; [reflexivity|].
  exact (proj2 (proj2 (proj2 (unlink_then_lookup pendingTop "f" w0 _ _
                                eq_refl))) w0).
Defined.


(** * Reification in detail *)

Lemma getNode_name clean d w :
  name (getNode clean d w).1.2 = name d ∧ ctx (getNode clean d w).1.2 = ctx d.
Proof.
  rewrite getNode_unfold. unfold cacheSyncWith.
  destruct (map_fold _ _ _) as [[[err u] cache] w1].
  destruct err as [e|]; simpl; [done|].
  unfold DAGService_Add. by destruct (ctxErr (ctx d)).
Qed.

Lemma cacheSyncStep_indep g n cx k e (st1 st2 : SyncState) :
  st1.1 = st2.1 →
  (∀ c, e = IsDir c → world_independent g c) →
  (cacheSyncStep g n cx k e st1).1 = (cacheSyncStep g n cx k e st2).1.
Proof.
  destruct st1 as [[[err1 u1] c1] w1], st2 as [[[err2 u2] c2] w2]. simpl.
  intros H Hg. injection H as -> -> ->. unfold cacheSyncStep.
  destruct err2; [done|].
  destruct e as [c|fi]; simpl.
  - specialize (Hg c eq_refl (emit (EvChildCall n k "GetNode") w1)
                  (emit (EvChildCall n k "GetNode") w2)).
    destruct (g c _) as [[r1 c1'] w1'], (g c _) as [[r2 c2'] w2'].
    simpl in Hg. injection Hg as -> ->.
    destruct r2 as [nd|e]; [|done]. by destruct (uio.AddChild cx k nd u2).
  - by destruct (uio.AddChild cx k (fnode fi) u2).
Qed.

Lemma cacheSync_loop_indep g n cx (l : list (string * FSNode)) :
  ∀ st1 st2 : SyncState,
    st1.1 = st2.1 →
    (∀ k c, (k, IsDir c) ∈ l → world_independent g c) →
    (foldr (uncurry (cacheSyncStep g n cx)) st1 l).1 =
    (foldr (uncurry (cacheSyncStep g n cx)) st2 l).1.
Proof.
  induction l as [|[k e] l IH]; intros st1 st2 H Hg; simpl; [done|].
  apply cacheSyncStep_indep.
  - apply IH; [done|]. intros k' c Hin. apply (Hg k'). by right.
  - intros c ->. apply (Hg k). by left.
Qed.

(** The node and the directory [getNode] returns depend on the directory
    alone, not on the DAG service or the log. *)
Lemma getNode_indep d : ∀ clean, world_independent (getNode clean) d.
Proof.
  induction d as [d IH] using Directory_cache_ind. intros clean w1 w2.
  rewrite !getNode_unfold. unfold cacheSyncWith. rewrite !map_fold_foldr.
  assert (∀ k c, (k, IsDir c) ∈ map_to_list (entriesCache d) →
                 world_independent (getNode false) c) as Hg.
  { intros k c Hin. apply (IH k c). by apply elem_of_map_to_list. }
  pose proof (cacheSync_loop_indep (getNode false) (name d) (ctx d)
                (map_to_list (entriesCache d))
                (None, unixfsDir d, entriesCache d, emit (EvLock (name d)) w1)
                (None, unixfsDir d, entriesCache d, emit (EvLock (name d)) w2)
                eq_refl Hg) as Hl.
  destruct (foldr _ _ _) as [[[e1 u1] c1] w1'],
           (foldr _ _ _) as [[[e2 u2] c2] w2'].
  simpl in Hl. injection Hl as -> -> ->.
  destruct e2 as [e|]; simpl; [done|].
  unfold DAGService_Add. by destruct (ctxErr (ctx d)).
Qed.

Lemma FSNode_GetNode_entryNode entry w r entry' w' :
  FSNode_GetNode GetNode entry w = (r, entry', w') →
  entryNode entry = r ∧
  FSNode_Type entry' = FSNode_Type entry ∧
  FSNode_name entry' = FSNode_name entry ∧
  (∀ fi, entry = IsFile fi → entry' = entry).
Proof.
  unfold entryNode. destruct entry as [c|fi]; simpl.
  - pose proof (getNode_indep c false w w0) as Hi.
    pose proof (getNode_name false c w) as [Hn _]. unfold GetNode.
    destruct (getNode false c w) as [[r1 c1] w1],
             (getNode false c w0) as [[r2 c2] w2].
    simpl in *. injection Hi as -> ->. intros H. injection H as <- <- _.
    done.
  - intros H. by injection H as <- <- _.
Qed.


(** ** The DAG service only grows *)

Lemma grows_refl w : grows w w.
Proof. by exists []. Qed.

Lemma grows_trans w1 w2 w3 : grows w1 w2 → grows w2 w3 → grows w1 w3.
Proof. unfold grows. by etrans. Qed.

Lemma grows_emit ev w : grows w (emit ev w).
Proof. by exists []. Qed.

Lemma grows_Add c nd w : grows w (DAGService_Add c nd w).2.
Proof.
  unfold DAGService_Add, grows. destruct (ctxErr c); simpl; [by exists []|].
  by apply suffix_cons_r.
Qed.

Lemma grows_elem w w' x : grows w w' → x ∈ dagService w → x ∈ dagService w'.
Proof. intros [k ->] Hx. apply elem_of_app. by right. Qed.

Lemma FSNode_GetNode_grows g entry w :
  (∀ c, entry = IsDir c → ∀ w, grows w (g c w).2) →
  grows w (FSNode_GetNode g entry w).2.
Proof.
  intros Hg. destruct entry as [c|fi]; simpl; [|apply grows_refl].
  specialize (Hg c eq_refl w). by destruct (g c w) as [[r c'] w'].
Qed.

Lemma cacheSyncStep_grows g n cx k entry (st : SyncState) :
  (∀ c, entry = IsDir c → ∀ w, grows w (g c w).2) →
  grows st.2 (cacheSyncStep g n cx k entry st).2.
Proof.
  intros Hg. destruct st as [[[err u] cache] w]. unfold cacheSyncStep.
  destruct err as [e|]; [apply grows_refl|].
  pose proof (FSNode_GetNode_grows g entry
                (emit (EvChildCall n k "GetNode") w) Hg) as Hs.
  destruct (FSNode_GetNode _ _ _) as [[r entry'] w1]. simpl in *.
  assert (grows w w1) as Hw
    by (eapply grows_trans; [apply grows_emit | exact Hs]).
  destruct r as [nd|e]; [|done]. by destruct (uio.AddChild cx k nd u).
Qed.

Lemma cacheSync_loop_grows g n cx (st0 : SyncState)
    (m : gmap string FSNode) :
  (∀ k c, m !! k = Some (IsDir c) → ∀ w, grows w (g c w).2) →
  grows st0.2 (map_fold (cacheSyncStep g n cx) st0 m).2.
Proof.
  apply (map_fold_weak_ind
    (λ (r : SyncState) (m : gmap string FSNode),
       (∀ k c, m !! k = Some (IsDir c) → ∀ w, grows w (g c w).2) →
       grows st0.2 r.2)).
  - intros _. apply grows_refl.
  - intros i x m' r Hi IH Hm. eapply grows_trans.
    + apply IH. intros k c Hk. apply (Hm k).
      rewrite lookup_insert_ne; [done|]. intros ->. congruence.
    + apply cacheSyncStep_grows. intros c ->. apply (Hm i).
      by rewrite lookup_insert_eq.
Qed.

Lemma getNodeTail_grows err d w : grows w (getNodeTail err d w).2.
Proof.
  unfold getNodeTail. destruct err as [e|]; [apply grows_emit|]. simpl.
  match goal with
  | |- context [DAGService_Add ?c ?nd w] =>
      pose proof (grows_Add c nd w) as Hs;
      destruct (DAGService_Add c nd w) as [e w1]
  end.
  simpl in Hs.
  destruct e; (eapply grows_trans; [exact Hs | apply grows_emit]).
Qed.

(** [getNode] never removes a node from the DAG service. *)
Lemma getNode_grows d : ∀ clean w, grows w (getNode clean d w).2.
Proof.
  induction d as [d IH] using Directory_cache_ind. intros clean w.
  rewrite getNode_unfold. unfold cacheSyncWith.
  pose proof (cacheSync_loop_grows (getNode false) (name d) (ctx d)
                (None, unixfsDir d, entriesCache d, emit (EvLock (name d)) w)
                (entriesCache d)) as Hs.
  destruct (map_fold _ _ _) as [[[err u] cache] w1]. simpl in Hs.
  assert (grows w w1) as Hw.
  { eapply grows_trans; [apply (grows_emit (EvLock (name d)))|].
    apply Hs. intros k c Hc. by apply (IH k c). }
  destruct err as [e|];
    (eapply grows_trans; [exact Hw | apply getNodeTail_grows]).
Qed.

Lemma getNode_ok_stored clean d w nd d' w' :
  getNode clean d w = (Ok nd, d', w') →
  uio.GetNode (unixfsDir d') = Ok nd ∧ nd ∈ dagService w' ∧
  ctx d = Background.
Proof.
  rewrite getNode_unfold. unfold cacheSyncWith.
  destruct (map_fold _ _ _) as [[[err u] cache] w1].
  destruct err as [e|]; simpl; [congruence|].
  unfold DAGService_Add. destruct (ctx d); simpl; [|congruence].
  intros H. injection H as <- <- <-. simpl.
  split; [done|]. split; [apply list_elem_of_here|done].
Qed.


(** ** What the loop of [cacheSync] computes *)

Lemma synced_refl e : synced e e.
Proof. by repeat split. Qed.

Lemma AddChild_fields cx k nd u :
  uio.set_links (uio.links u) (uio.AddChild cx k nd u).2 = u ∧
  ((uio.AddChild cx k nd u).1 = None →
   uio.links (uio.AddChild cx k nd u).2 = <[k := nd]> (uio.links u)) ∧
  ((uio.AddChild cx k nd u).1 ≠ None → (uio.AddChild cx k nd u).2 = u).
Proof.
  unfold uio.AddChild. destruct u. destruct (ctxErr cx); simpl; by repeat split.
Qed.

(** One iteration, spelled out: nothing happens after an error; otherwise
    the entry is asked for its node, put back into the cache, and on
    success its node is linked under its name. *)
Lemma cacheSyncStep_spec n cx i x err u cache w :
  (err ≠ None ∧ cacheSyncStep GetNode n cx i x (err, u, cache, w)
                = (err, u, cache, w)) ∨
  (err = None ∧ ∃ res x' w1,
     FSNode_GetNode GetNode x (emit (EvChildCall n i "GetNode") w)
       = (res, x', w1) ∧
     match res with
     | Err e =>
         cacheSyncStep GetNode n cx i x (err, u, cache, w)
           = (Some e, u, <[i := x']> cache, w1)
     | Ok nd =>
         cacheSyncStep GetNode n cx i x (err, u, cache, w)
           = ((uio.AddChild cx i nd u).1, (uio.AddChild cx i nd u).2,
              <[i := x']> cache, w1)
     end).
Proof.
  unfold cacheSyncStep. destruct err as [e|]; [by left|]. right.
  split; [done|].
  destruct (FSNode_GetNode _ _ _) as [[res x'] w1].
  exists res, x', w1. split; [done|].
  destruct res as [nd|e]; [|done]. by destruct (uio.AddChild cx i nd u).
Qed.

Lemma cacheSync_loop_spec n cx u0 (c0 : gmap string FSNode) w00
    (m : gmap string FSNode) :
  let r := map_fold (cacheSyncStep GetNode n cx) (None, u0, c0, w00) m in
  (∀ k e, m !! k = Some e → c0 !! k = Some e) →
  (∀ k, m !! k = None →
        r.1.2 !! k = c0 !! k ∧
        uio.links r.1.1.2 !! k = uio.links u0 !! k) ∧
  (∀ k e, m !! k = Some e → ∃ e', r.1.2 !! k = Some e' ∧ synced e e') ∧
  (r.1.1.1 = None →
   ∀ k e, m !! k = Some e →
     ∃ nd, entryNode e = Ok nd ∧ uio.links r.1.1.2 !! k = Some nd ∧
           (∀ c, e = IsDir c → nd ∈ dagService r.2)) ∧
  uio.set_links (uio.links u0) r.1.1.2 = u0.
Proof.
  apply (map_fold_weak_ind
    (λ (r : SyncState) (m : gmap string FSNode),
       (∀ k e, m !! k = Some e → c0 !! k = Some e) →
       (∀ k, m !! k = None →
             r.1.2 !! k = c0 !! k ∧
             uio.links r.1.1.2 !! k = uio.links u0 !! k) ∧
       (∀ k e, m !! k = Some e → ∃ e', r.1.2 !! k = Some e' ∧ synced e e') ∧
       (r.1.1.1 = None →
        ∀ k e, m !! k = Some e →
          ∃ nd, entryNode e = Ok nd ∧ uio.links r.1.1.2 !! k = Some nd ∧
                (∀ c, e = IsDir c → nd ∈ dagService r.2)) ∧
       uio.set_links (uio.links u0) r.1.1.2 = u0)).
  - intros _. simpl. split; [|split; [|split]].
    + done.
    + intros k e H. by rewrite lookup_empty in H.
    + intros _ k e H. by rewrite lookup_empty in H.
    + by destruct u0.
  - intros i x m' [[[err u] cache] w] Hi IH Hsub.
    destruct IH as (IHa & IHb & IHc & IHd).
    { intros k e Hk. apply Hsub. rewrite lookup_insert_ne; [done|].
      intros ->. congruence. }
    simpl in IHa, IHb, IHc, IHd.
    assert (c0 !! i = Some x) as Hc0
      by (apply Hsub; by rewrite lookup_insert_eq).
    destruct (IHa i Hi) as [Hci Hui].
    destruct (cacheSyncStep_spec n cx i x err u cache w)
      as [[Herr ->]|(-> & res & x' & w1 & Hget & Hstep)].
    { (* the loop has stopped already *)
      simpl. split; [|split; [|split]].
      - intros k Hk. apply lookup_insert_None in Hk as [Hk _]. by apply IHa.
      - intros k e Hk. apply lookup_insert_Some in Hk as [[<- <-]|[Hne Hk]].
        + exists x. split; [congruence|apply synced_refl].
        + by apply IHb.
      - done.
      - done. }
    destruct (FSNode_GetNode_entryNode _ _ _ _ _ Hget)
      as (Hnode & Hty & Hnm & Hfile).
    assert (grows w w1) as Hgrow.
    { eapply grows_trans; [apply (grows_emit (EvChildCall n i "GetNode"))|].
      pose proof (FSNode_GetNode_grows GetNode x
                    (emit (EvChildCall n i "GetNode") w)) as Hg.
      rewrite Hget in Hg. apply Hg. intros c _ w2. apply getNode_grows. }
    assert (∀ k, (<[i:=x']> cache) !! k =
                 if decide (i = k) then Some x' else cache !! k) as Hcache.
    { intros k. apply lookup_insert. }
    destruct res as [nd|e]; rewrite Hstep; simpl.
    + destruct (AddChild_fields cx i nd u) as (Hf & Hok & Hko).
      split; [|split; [|split]].
      * intros k Hk. apply lookup_insert_None in Hk as [Hk Hne].
        rewrite lookup_insert_ne by done. split; [by apply IHa|].
        destruct ((uio.AddChild cx i nd u).1) eqn:He.
        -- rewrite Hko by done. by apply IHa.
        -- rewrite Hok by done. rewrite lookup_insert_ne by done.
           by apply IHa.
      * intros k e Hk. apply lookup_insert_Some in Hk as [[<- <-]|[Hne Hk]].
        -- exists x'. by rewrite lookup_insert_eq.
        -- rewrite lookup_insert_ne by done. by apply IHb.
      * intros He k e Hk. rewrite (Hok He).
        apply lookup_insert_Some in Hk as [[<- <-]|[Hne Hk]].
        -- exists nd. rewrite lookup_insert_eq. split; [done|].
           split; [done|]. intros c ->. simpl in Hget.
           unfold GetNode in Hget.
           destruct (getNode false c _) as [[r2 c2] w2] eqn:Hg2.
           injection Hget as -> <- <-.
           by destruct (getNode_ok_stored _ _ _ _ _ _ Hg2) as (_ & ? & _).
        -- rewrite lookup_insert_ne by done.
           destruct (IHc eq_refl k e Hk) as (nd' & H1 & H2 & H3).
           exists nd'. split; [done|]. split; [done|].
           intros c Hc. eapply grows_elem; [exact Hgrow|]. exact (H3 c Hc).
      * rewrite <- IHd at 2. destruct ((uio.AddChild cx i nd u).1) eqn:He.
        -- by rewrite Hko.
        -- rewrite <- Hf at 2. by destruct (uio.AddChild cx i nd u).2.
    + split; [|split; [|split]].
      * intros k Hk. apply lookup_insert_None in Hk as [Hk Hne].
        rewrite lookup_insert_ne by done. by apply IHa.
      * intros k e' Hk. apply lookup_insert_Some in Hk as [[<- <-]|[Hne Hk]].
        -- exists x'. by rewrite lookup_insert_eq.
        -- rewrite lookup_insert_ne by done. by apply IHb.
      * done.
      * done.
Qed.


Lemma getNode_loop clean d w :
  let r := map_fold (cacheSyncStep GetNode (name d) (ctx d))
             (None, unixfsDir d, entriesCache d, emit (EvLock (name d)) w)
             (entriesCache d) in
  getNode clean d w =
    getNodeTail r.1.1.1
      (mkDirectory (name d) (ctx d) r.1.1.2
         (match r.1.1.1 with
          | Some _ => r.1.2
          | None => if clean then ∅ else r.1.2
          end))
      r.2.
Proof.
  rewrite getNode_unfold. unfold cacheSyncWith.
  change (getNode false) with GetNode.
  destruct (map_fold _ _ _) as [[[err u] cache] w1]. simpl.
  by destruct err.
Qed.

Lemma getNodeTail_inv err d w r d' w' :
  getNodeTail err d w = (r, d', w') →
  d' = d ∧
  match r with
  | Ok nd => err = None ∧ uio.GetNode (unixfsDir d) = Ok nd ∧
             nd ∈ dagService w'
  | Err _ => True
  end.
Proof.
  unfold getNodeTail. destruct err as [e|].
  { intros H. by injection H as <- <- _. }
  simpl. unfold DAGService_Add. destruct (ctxErr (ctx d)); simpl;
    intros H; injection H as <- <- <-; [done|].
  repeat split. apply list_elem_of_here.
Qed.

(** X7: what a successful [getNode] has written: every cached entry has
    been asked for its node and that node is linked under the entry's name,
    replacing what was linked there; the links of the other names and the
    settings of the backing directory are as before; the node returned is
    the serialised backing directory and is in the DAG service, as are the
    nodes of the cached directories. *)
Theorem getNode_sync_result (clean : bool) (d : Directory) (w : World)
    (nd : Node) (d' : Directory) (w' : World) :
  getNode clean d w = (Ok nd, d', w') →
  uio.GetNode (unixfsDir d') = Ok nd ∧
  nd ∈ dagService w' ∧
  (∀ k e, entriesCache d !! k = Some e →
     ∃ n, entryNode e = Ok n ∧
          uio.links (unixfsDir d') !! k = Some n ∧
          (∀ c, e = IsDir c → n ∈ dagService w')) ∧
  (∀ k, entriesCache d !! k = None →
     uio.links (unixfsDir d') !! k = uio.links (unixfsDir d) !! k) ∧
  uio.set_links (uio.links (unixfsDir d)) (unixfsDir d') = unixfsDir d.
Proof.
  rewrite getNode_loop.
  pose proof (cacheSync_loop_spec (name d) (ctx d) (unixfsDir d)
                (entriesCache d) (emit (EvLock (name d)) w) (entriesCache d))
    as Hspec.
  simpl in Hspec. destruct (Hspec (λ k e H, H)) as (Ha & _ & Hc & Hd).
  clear Hspec. destruct (map_fold _ _ _) as [[[err u] cache] w1].
  simpl in *. intros H.
  pose proof (getNodeTail_grows err
                (mkDirectory (name d) (ctx d) u
                   match err with
                   | Some _ => cache
                   | None => if clean then ∅ else cache
                   end) w1) as Hgrow.
  rewrite H in Hgrow. simpl in Hgrow.
  destruct (getNodeTail_inv _ _ _ _ _ _ H) as (-> & -> & Hn & Hin).
  simpl in *. split; [done|]. split; [done|]. split; [|split; [|done]].
  - intros k e Hk. destruct (Hc eq_refl k e Hk) as (n & H1 & H2 & H3).
    exists n. split; [done|]. split; [done|].
    intros c Hc'. eapply grows_elem; [exact Hgrow|]. exact (H3 c Hc').
  - intros k Hk. by apply Ha.
Qed.

Lemma getNode_sync_result_witness :
  ∃ nd d' w',
    GetNode pendingTop w0 = (Ok nd, d', w') ∧
    uio.links (unixfsDir d') !! "f" = Some fileNode ∧
    uio.links (unixfsDir d') !! "g" = None.
Proof.
  eexists _, _, _. split; [reflexivity|].
  destruct (getNode_sync_result false pendingTop w0 _ _ _ eq_refl)
    as (_ & _ & Hc & Hn & _).
  split.
  - destruct (Hc "f" (IsFile (mkFile "f" fileNode)) eq_refl)
      as (n & Hn1 & Hn2 & _).
    injection Hn1 as <-. exact Hn2.
  - exact (Hn "g" eq_refl).
Defined.



Lemma localUpdate_grows c d w : grows w (localUpdate c d w).2.
Proof.
  destruct d as [n cx u cache]. unfold localUpdate. simpl.
  destruct (uio.AddChild cx (Name c) (Node_ c) u) as [err u1]. simpl.
  destruct err as [e|]; simpl; [by exists []|].
  match goal with
  | |- context [DAGService_Add cx ?nd ?w0] =>
      pose proof (grows_Add cx nd w0) as Hs;
      destruct (DAGService_Add cx nd w0) as [e w1]
  end.
  simpl in Hs. destruct e; exact Hs.
Qed.

Lemma updateChildEntry_grows p : ∀ c w,
  grows w (updateChildEntry c p w).2.
Proof.
  induction p as [r|d up IH]; intros c w; simpl.
  - unfold Root_updateChildEntry. destruct (String.eqb _ _); apply grows_refl.
  - pose proof (localUpdate_grows c d w) as Hs.
    destruct (localUpdate c d w) as [[res d1] w1]. simpl in Hs.
    destruct res as [nd|e]; [|done].
    specialize (IH (mkchild (name d1) nd) (emit (EvParentCall (name d1)) w1)).
    destruct (updateChildEntry _ up _) as [[e up'] w2]. simpl in *.
    eapply grows_trans; [exact Hs | exact IH].
Qed.

Lemma Flush_grows d p w : grows w (Flush d p w).2.
Proof.
  unfold Flush. pose proof (getNode_grows d true w) as Hg.
  destruct (getNode true d w) as [[res d1] w1]. simpl in Hg.
  destruct res as [nd|e]; [|done].
  pose proof (updateChildEntry_grows p (mkchild (name d1) nd)
                (emit (EvParentCall (name d1)) w1)) as Hu.
  destruct (updateChildEntry _ p _) as [[e p'] w2]. simpl in *.
  eapply grows_trans; [exact Hg | exact Hu].
Qed.

Lemma MkdirWithOpts_grows nm opts d w :
  grows w (MkdirWithOpts nm opts d w).2.
Proof.
  unfold MkdirWithOpts. destruct (childUnsync nm d) as [fsn d1].
  destruct fsn as [[c|fi]|e]; try (by exists []).
  unfold NewEmptyDirectory, uio.NewDirectory. simpl.
  match goal with
  | |- context [DAGService_Add ?c ?nd ?w0] =>
      pose proof (grows_Add c nd w0) as Hs;
      destruct (DAGService_Add c nd w0) as [e' w1]
  end.
  simpl in Hs. destruct e' as [e'|]; [exact Hs|].
  unfold GetNode.
  match goal with
  | |- context [getNode false ?x ?y] =>
      pose proof (getNode_grows x false y) as Hg;
      destruct (getNode false x y) as [[r dirobj'] w2]
  end.
  simpl in Hg.
  assert (grows w w2) as Hw by (eapply grows_trans; [exact Hs | exact Hg]).
  destruct r as [ndir|e']; [|exact Hw].
  destruct (uio.AddChild _ _ _ _) as [e' u]. simpl. by destruct e'.
Qed.

Lemma forEachEntryStep_grows {A} (f : NodeListing → A → option error * A)
    l d w a :
  grows w (forEachEntryStep f l (d, w, a)).2.1.2.
Proof.
  unfold forEachEntryStep. destruct (childUnsync l.1 d) as [r d1].
  destruct r as [c|e]; [|apply grows_refl].
  pose proof (FSNode_GetNode_grows GetNode c
                (emit (EvChildCall (name d1) l.1 "GetNode") w)) as Hg.
  destruct (FSNode_GetNode _ _ _) as [[r c'] w1]. simpl in Hg.
  assert (grows w w1) as Hw.
  { apply Hg. intros ch _ w2. apply getNode_grows. }
  destruct r as [nd|e]; [|done]. simpl.
  destruct c' as [ch|fi].
  - destruct (f _ a) as [e a']. done.
  - destruct (File_Size fi) as [size|e]; [|done].
    destruct (f _ a) as [e a']. done.
Qed.

Lemma ForEachEntry_grows {A} c (f : NodeListing → A → option error * A)
    d w a :
  grows w (ForEachEntry c f d w a).1.2.
Proof.
  unfold ForEachEntry, uio.ForEachLink.
  assert (∀ (ls : list (string * Node)) e d1 w1 a1,
            grows w w1 →
            grows w (fold_left
                       (λ acc l, match acc with
                                 | (Some _, _) => acc
                                 | (None, s) => forEachEntryStep f l s
                                 end) ls (e, (d1, w1, a1))).2.1.2) as Hfold.
  { induction ls as [|l ls IH]; intros e d1 w1 a1 Hs; [done|].
    cbn [fold_left]. destruct e as [e|]; [by apply IH|].
    pose proof (forEachEntryStep_grows f l d1 w1 a1) as Hs1.
    destruct (forEachEntryStep f l (d1, w1, a1)) as [e' [[d2 w2] a2]].
    cbn [fst snd] in Hs1. apply IH. eapply grows_trans; [exact Hs|done]. }
  destruct (ctxErr c) as [e|]; [by exists []|].
  specialize (Hfold (uio.Links (unixfsDir d)) None d
                (emit (EvLock (name d)) w) a (grows_emit _ _)).
  destruct (fold_left _ _ _) as [e [[d2 w2] a2]]. done.
Qed.



(** * Propagation *)

Lemma localUpdate_ok c d w nd d' w' :
  localUpdate c d w = (Ok nd, d', w') →
  d' = set_unixfsDir
         (uio.set_links (<[Name c := Node_ c]> (uio.links (unixfsDir d)))
            (unixfsDir d)) d ∧
  uio.GetNode (unixfsDir d') = Ok nd ∧ nd ∈ dagService w'.
Proof.
  destruct d as [n cx u cache]. unfold localUpdate, uio.AddChild. simpl.
  unfold DAGService_Add. destruct cx; simpl; [|congruence].
  intros H. injection H as <- <- <-. simpl.
  split; [done|]. split; [done|]. apply list_elem_of_here.
Qed.

(** When [updateChildEntry] succeeds, the update has reached the root:
    each ancestor links the child below it to the new node of that child
    and is otherwise unchanged, the new node of each ancestor is in the DAG
    service, and the root holds the CID of the new node of the top
    directory. *)
Lemma updateChildEntry_relinked (p : Parent) :
  ∀ (c : child) (w : World) (p' : Parent) (w' : World),
    updateChildEntry c p w = (None, p', w') →
    relinked (dagService w') c p p'.
Proof.
  induction p as [r|d up IH]; intros c w p' w'; simpl.
  - unfold Root_updateChildEntry.
    destruct (String.eqb (Name c) (topName r)) eqn:Heq; [|congruence].
    intros H. injection H as <- _. simpl.
    by apply String.eqb_eq in Heq.
  - destruct (localUpdate c d w) as [[res d1] w1] eqn:Hl.
    destruct res as [nd|e]; [|congruence].
    destruct (updateChildEntry _ up _) as [[e up'] w2] eqn:Hu.
    intros H. injection H as -> <- <-.
    destruct (localUpdate_ok _ _ _ _ _ _ Hl) as (Hd1 & Hn & Hin).
    simpl. split; [done|]. exists nd. split; [done|]. split.
    + pose proof (updateChildEntry_grows up (mkchild (name d1) nd)
                    (emit (EvParentCall (name d1)) w1)) as Hg.
      rewrite Hu in Hg. eapply grows_elem; [exact Hg|done].
    + assert (name d1 = name d) as <- by by rewrite Hd1.
      by apply (IH _ _ _ _ Hu).
Qed.


(** X9: [Flush] is not atomic.  When [getNode(true)] has succeeded and
    the update of the parent fails, [Flush] returns that error although
    the cache of the directory has been emptied and its entries have been
    written to the backing directory; the ancestors above the failure are
    not reached. *)
Theorem flush_parent_failure (d : Directory) (p : Parent) (w : World)
    (nd : Node) (d1 : Directory) (w1 : World) (e : error) (p1 : Parent)
    (w2 : World) :
  getNode true d w = (Ok nd, d1, w1) →
  updateChildEntry (mkchild (name d) nd) p (emit (EvParentCall (name d)) w1)
    = (Some e, p1, w2) →
  Flush d p w = (Some e, d1, p1, w2) ∧
  entriesCache d1 = ∅ ∧
  (∀ k, is_Some (entriesCache d !! k) →
        is_Some (uio.links (unixfsDir d1) !! k)) ∧
  match p, p1 with
  | ParentDir a up, ParentDir a1 up1 =>
      (localUpdate (mkchild (name d) nd) a
         (emit (EvParentCall (name d)) w1)).1.1 = Err e → up1 = up
  | _, _ => True
  end.
Proof.
  intros Hg Hu.
  pose proof (getNode_name true d w) as [Hname _]. rewrite Hg in Hname.
  simpl in Hname.
  destruct (getNode_true_ok _ _ _ _ _ Hg) as (Hc & _ & _ & _ & _ & _ & Hl).
  split; [|split; [done|split; [done|]]].
  - unfold Flush. by rewrite Hg, Hname, Hu.
  - destruct p as [r|a up]; [done|]. simpl in Hu.
    destruct (localUpdate _ a _) as [[res a1] w3].
    destruct res as [nd'|e'].
    + destruct (updateChildEntry _ up _) as [[e2 up'] w4].
      injection Hu as -> <- <-. simpl. congruence.
    + injection Hu as -> <- <-. done.
Qed.

Lemma flush_parent_failure_witness :
  ∃ d1 p1 w2,
    Flush pendingSub cancelledParent w0 = (Some ErrCanceled, d1, p1, w2) ∧
    entriesCache d1 = ∅ ∧
    is_Some (uio.links (unixfsDir d1) !! "f").
Proof.
  eexists _, _, _.
  destruct (flush_parent_failure pendingSub cancelledParent w0
              _ _ _ ErrCanceled _ _ eq_refl eq_refl) as (Hf & Hc & Hl & _).
  split; [exact Hf|]. split; [exact Hc|]. apply Hl. by eexists.
Defined.



(** * Mode and modification time: the locks *)

(** [setNodeData] adds the node and calls the parent before it takes the
    lock of the directory, which it releases on return. *)
Lemma setNodeData_segment data lks d p w :
  segment [] [] w (setNodeData data lks d p w).2 ∧
  name (setNodeData data lks d p w).1.1.2 = name d.
Proof.
  unfold setNodeData.
  pose proof (segment_Add [] (ctx d) (SetLinks lks (NodeWithData data)) w)
    as Ha.
  destruct (DAGService_Add _ _ _) as [e w1]. simpl in Ha.
  destruct e as [e|]; [done|].
  pose proof (updateChildEntry_segment p
                (mkchild (name d) (SetLinks lks (NodeWithData data)))
                (emit (EvParentCall (name d)) w1)) as Hu.
  destruct (updateChildEntry _ p _) as [[e p'] w2]. simpl in Hu.
  assert (segment [] [] w w2) as Hw.
  { eapply segment_trans; [exact Ha|].
    eapply segment_trans; [apply segment_parent | exact Hu]. }
  destruct e as [e|]; [done|].
  assert (segment [] [] w
            (emit (EvUnlock (name d)) (emit (EvLock (name d)) w2))) as Hl.
  { eapply segment_trans; [exact Hw|].
    eapply segment_trans; [apply segment_lock | apply segment_unlock]. }
  by destruct (uio.NewDirectoryFromNode _).
Qed.

Lemma SetMode_segment md d p w : segment [] [] w (SetMode md d p w).2.
Proof.
  unfold SetMode. pose proof (getNode_segment d false w []) as Hg.
  unfold GetNode. destruct (getNode false d w) as [[r d1] w1]. simpl in Hg.
  destruct r as [nd|e]; [|done].
  destruct (ExtractFSNode nd) as [fsn|e]; [|done]. simpl.
  destruct (setNodeData_segment (Some (ft_SetMode md fsn)) (Node_Links nd)
              d1 p w1) as [Hs _].
  destruct (setNodeData _ _ _ _ _) as [[[e d2] p2] w2]. simpl in Hs.
  assert (segment [] [] w w2) by (eapply segment_trans; eauto).
  by destruct e.
Qed.

Lemma SetModTime_segment ts d p w : segment [] [] w (SetModTime ts d p w).2.
Proof.
  unfold SetModTime. pose proof (getNode_segment d false w []) as Hg.
  unfold GetNode. destruct (getNode false d w) as [[r d1] w1]. simpl in Hg.
  destruct r as [nd|e]; [|done].
  destruct (ExtractFSNode nd) as [fsn|e]; [|done]. simpl.
  destruct (setNodeData_segment (Some (ft_SetModTime ts fsn)) (Node_Links nd)
              d1 p w1) as [Hs _].
  destruct (setNodeData _ _ _ _ _) as [[[e d2] p2] w2]. simpl in Hs.
  assert (segment [] [] w w2) by (eapply segment_trans; eauto).
  by destruct e.
Qed.

(** * Calls of child methods *)

Lemma calls_child_app t1 t2 :
  calls_child (t1 ++ t2) = calls_child t1 || calls_child t2.
Proof. apply existsb_app. Qed.

Lemma calls_child_emit n k m w :
  calls_child (events (emit (EvChildCall n k m) w)) = true.
Proof.
  simpl. rewrite calls_child_app. simpl. by rewrite orb_true_r.
Qed.

(** A call that is in the log stays in the log. *)
Lemma calls_child_segment h h' w w' :
  segment h h' w w' →
  calls_child (events w) = true → calls_child (events w') = true.
Proof.
  intros (δ & -> & _) H. by rewrite calls_child_app, H.
Qed.

(** In a log that respects [lock_order], a child is only ever called by a
    directory that holds its own lock: the log breaks the discipline as
    the specification words it as soon as it holds one such call. *)
Lemma lock_order_child_call tr : ∀ h h',
  lock_order h tr = Some h' →
  calls_child tr = true →
  child_calls_unlocked h tr = false.
Proof.
  induction tr as [|ev tr IH]; intros h h'; simpl; [done|].
  destruct ev as [n|n|d c m|n]; simpl.
  - apply IH.
  - destruct h as [|x h]; [done|]. simpl.
    destruct (String.eqb x n); [apply IH|done].
  - destruct h as [|x h]; [done|].
    destruct (String.eqb x d) eqn:Heq; [|done].
    apply String.eqb_eq in Heq as ->. intros _ _.
    rewrite bool_decide_eq_true_2; [done|]. apply list_elem_of_here.
  - destruct h as [|x h]; [apply IH|done].
Qed.

(** The loop of [cacheSync] over a cache that is not empty calls
    [GetNode] on a child. *)
Lemma cacheSync_loop_calls g n cx u cache w (m : gmap string FSNode) :
  (∀ k c, m !! k = Some (IsDir c) → keeps_locks g c) →
  m ≠ ∅ →
  calls_child
    (events (map_fold (cacheSyncStep g n cx) (None, u, cache, w) m).2) = true.
Proof.
  intros Hk Hne.
  cut ((m = ∅ → map_fold (cacheSyncStep g n cx) (None, u, cache, w) m
                 = (None, u, cache, w)) ∧
       (m ≠ ∅ → calls_child
          (events (map_fold (cacheSyncStep g n cx) (None, u, cache, w) m).2)
          = true)).
  { intros [_ H]. by apply H. }
  revert Hk. clear Hne.
  apply (map_fold_weak_ind
    (λ (r : SyncState) (m : gmap string FSNode),
       (∀ k c, m !! k = Some (IsDir c) → keeps_locks g c) →
       (m = ∅ → r = (None, u, cache, w)) ∧
       (m ≠ ∅ → calls_child (events r.2) = true))).
  - intros _. split; done.
  - intros i x m' r Hi IH Hm. split.
    { intros H. by apply insert_non_empty in H. }
    intros _.
    assert (∀ c, x = IsDir c → keeps_locks g c) as Hx.
    { intros c ->. apply (Hm i). by rewrite lookup_insert_eq. }
    destruct IH as [IH0 IH1].
    { intros k c Hk. apply (Hm k).
      rewrite lookup_insert_ne; [done|]. intros ->. congruence. }
    destruct (decide (m' = ∅)) as [He|Hne].
    + rewrite (IH0 He). unfold cacheSyncStep.
      pose proof (FSNode_GetNode_segment g x
                    (emit (EvChildCall n i "GetNode") w) [n] Hx) as Hs.
      destruct (FSNode_GetNode _ _ _) as [[r1 x'] w1]. simpl in Hs.
      pose proof (calls_child_segment _ _ _ _ Hs
                    (calls_child_emit n i "GetNode" w)) as Hc.
      destruct r1 as [nd|e]; [|done].
      by destruct (uio.AddChild cx i nd u).
    + eapply calls_child_segment.
      * apply (cacheSyncStep_segment g n cx i x r [] Hx).
      * by apply IH1.
Qed.

Lemma getNode_calls clean d w :
  entriesCache d ≠ ∅ → calls_child (events (getNode clean d w).2) = true.
Proof.
  intros Hne. rewrite getNode_unfold. unfold cacheSyncWith.
  pose proof (cacheSync_loop_calls (getNode false) (name d) (ctx d)
                (unixfsDir d) (entriesCache d) (emit (EvLock (name d)) w)
                (entriesCache d)) as Hc.
  destruct (map_fold _ _ _) as [[[err u] cache] w1]. simpl in Hc.
  assert (calls_child (events w1) = true) as Hw.
  { apply Hc; [|done]. intros k c _. intros w' h. apply getNode_segment. }
  assert (∀ d1, calls_child (events (getNodeTail err d1 w1).2) = true) as Ht.
  { intros d1. eapply calls_child_segment; [|exact Hw].
    apply (getNodeTail_segment err d1 w1 []). }
  destruct err; apply Ht.
Qed.

(** A successful [MkdirWithOpts] has called [GetNode] on the directory it
    created. *)
Lemma MkdirWithOpts_calls nm opts d w c :
  (MkdirWithOpts nm opts d w).1.1 = (Some c, None) →
  calls_child (events (MkdirWithOpts nm opts d w).2) = true.
Proof.
  unfold MkdirWithOpts.
  destruct (childUnsync nm d) as [fsn d1].
  destruct fsn as [[c'|fi]|e]; [done|done|].
  destruct (NewEmptyDirectory _ _ _ _) as [r w1].
  destruct r as [dirobj|e']; [|done].
  pose proof (getNode_segment dirobj false
                (emit (EvChildCall (name d1) nm "GetNode") w1) [])
    as Hg.
  unfold GetNode. destruct (getNode false dirobj _) as [[r dirobj'] w2].
  simpl in Hg.
  pose proof (calls_child_segment _ _ _ _ Hg
                (calls_child_emit (name d1) nm "GetNode" w1)) as Hc.
  assert (∀ n, calls_child (events (emit (EvUnlock n) w2)) = true) as Hu.
  { intros n. simpl. by rewrite calls_child_app, Hc. }
  destruct r as [ndir|e']; [|done].
  destruct (uio.AddChild _ _ _ _) as [e' u]. simpl.
  destruct e'; [done|]. intros _. apply Hu.
Qed.

(** A step of [ForEachEntry] that ends without an error has called the
    methods of the child. *)
Lemma forEachEntryStep_calls {A} (f : NodeListing → A → option error * A)
    l d w a :
  (forEachEntryStep f l (d, w, a)).1 = None →
  calls_child (events (forEachEntryStep f l (d, w, a)).2.1.2) = true.
Proof.
  unfold forEachEntryStep.
  destruct (childUnsync l.1 d) as [r d1].
  destruct r as [c|e]; [|done].
  destruct (FSNode_GetNode _ _ _) as [[r c'] w1].
  destruct r as [nd|e]; [|done]. simpl.
  destruct c' as [ch|fi].
  - destruct (f _ a) as [e a']. intros _. apply calls_child_emit.
  - destruct (File_Size fi) as [size|e]; [|done].
    destruct (f _ a) as [e a']. intros _. apply calls_child_emit.
Qed.

(** A successful [ForEachEntry] over a directory with at least one link
    has called the methods of a child. *)
Lemma ForEachEntry_calls {A} c (f : NodeListing → A → option error * A)
    d w a :
  uio.links (unixfsDir d) ≠ ∅ →
  (ForEachEntry c f d w a).1.1.1 = None →
  calls_child (events (ForEachEntry c f d w a).1.2) = true.
Proof.
  intros Hne. unfold ForEachEntry, uio.ForEachLink.
  destruct (ctxErr c) as [e|]; [done|].
  assert (uio.Links (unixfsDir d) ≠ []) as Hl.
  { unfold uio.Links. intros H. by apply map_to_list_empty_iff in H. }
  destruct (exists_last Hl) as (l & x & ->).
  rewrite fold_left_app. cbn [fold_left].
  destruct (fold_left _ l _) as [e1 [[d1 w1] a1]].
  destruct e1 as [e1|]; [done|].
  pose proof (forEachEntryStep_calls f x d1 w1 a1) as Hc.
  destruct (forEachEntryStep f x (d1, w1, a1)) as [e2 [[d2 w2] a2]].
  cbn [fst snd] in *. intros He. simpl.
  by rewrite calls_child_app, (Hc He).
Qed.


(** C9 (amended): the locks are ordered from parent to child.  Starting
    with no lock held, each of [Flush], [updateChildEntry], [GetNode],
    [MkdirWithOpts], [ForEachEntry], [Child], [Uncache], [Unlink],
    [AddChild], [ListNames], [SetMode], [SetModTime] and [setNodeData]
    releases every lock it takes, in reverse order, before it returns, and
    calls a child only while the directory holds its own lock;  [Flush],
    [updateChildEntry] and [setNodeData] (hence [SetMode] and
    [SetModTime]) call the parent only while no lock is held.  The
    top-down operations do call the methods of a child while the directory
    holds its lock: [getNode] (through [cacheSync]) whenever the cache is
    not empty, [MkdirWithOpts] whenever it creates the directory, and
    [ForEachEntry] whenever it ends without an error on a directory that
    has a link. *)
Theorem lock_order_respected (d : Directory) (p : Parent)
    (dag : list Node) :
  let w := quiet dag in
  lock_order [] (events (Flush d p w).2) = Some [] ∧
  (∀ c, lock_order [] (events (updateChildEntry c p w).2) = Some []) ∧
  lock_order [] (events (GetNode d w).2) = Some [] ∧
  (∀ nm opts,
     lock_order [] (events (MkdirWithOpts nm opts d w).2) = Some []) ∧
  (∀ A c (f : NodeListing → A → option error * A) a,
     lock_order [] (events (ForEachEntry c f d w a).1.2) = Some []) ∧
  (∀ nm, lock_order [] (events (Child nm d w).2) = Some []) ∧
  (∀ nm, lock_order [] (events (Uncache nm d w).2) = Some []) ∧
  (∀ nm, lock_order [] (events (Unlink nm d w).2) = Some []) ∧
  (∀ nm nd, lock_order [] (events (AddChild nm nd d w).2) = Some []) ∧
  (∀ c, lock_order [] (events (ListNames c d w).2) = Some []) ∧
  (∀ md, lock_order [] (events (SetMode md d p w).2) = Some []) ∧
  (∀ ts, lock_order [] (events (SetModTime ts d p w).2) = Some []) ∧
  (∀ data lks,
     lock_order [] (events (setNodeData data lks d p w).2) = Some []) ∧
  (∀ clean,
     entriesCache d ≠ ∅ →
     child_calls_unlocked [] (events (getNode clean d w).2) = false) ∧
  (∀ nm opts c,
     (MkdirWithOpts nm opts d w).1.1 = (Some c, None) →
     child_calls_unlocked [] (events (MkdirWithOpts nm opts d w).2)
       = false) ∧
  (∀ A c (f : NodeListing → A → option error * A) a,
     uio.links (unixfsDir d) ≠ ∅ →
     (ForEachEntry c f d w a).1.1.1 = None →
     child_calls_unlocked [] (events (ForEachEntry c f d w a).1.2) = false).
Proof.
  intros w.
  destruct (simple_ops_segment d w []) as (Hc & Hu & Hl & Ha & Hn).
  repeat match goal with |- _ ∧ _ => split end; intros;
    try (apply (segment_quiet dag); auto).
  - apply Flush_segment.
  - apply updateChildEntry_segment.
  - apply getNode_segment.
  - apply MkdirWithOpts_segment.
  - apply ForEachEntry_segment.
  - apply SetMode_segment.
  - apply SetModTime_segment.
  - apply setNodeData_segment.
  - eapply lock_order_child_call; [|by apply getNode_calls].
    apply (segment_quiet dag), getNode_segment.
  - eapply lock_order_child_call; [|by eapply MkdirWithOpts_calls].
    apply (segment_quiet dag), MkdirWithOpts_segment.
  - eapply lock_order_child_call; [|by apply ForEachEntry_calls].
    apply (segment_quiet dag), ForEachEntry_segment.
Qed.

Lemma lock_order_respected_witness :
  child_calls_unlocked []
    (events (MkdirWithOpts "b" (mkMkdirOpts 0 0 0 0 nilBuilder) emptyTop
               (quiet [])).2) = false ∧
  child_calls_unlocked []
    (events (List Background linkedTop (quiet [])).1.2) = false ∧
  lock_order [] (events (SetMode 7 pendingSub subParent (quiet [])).2)
    = Some [].
Proof.
  split; [|split].
  - destruct (lock_order_respected emptyTop topRoot [])
      as (_ & _ & _ & _ & _ & _ & _ & _ & _ & _ & _ & _ & _ & _ & Hm & _).
    eapply Hm. reflexivity.
  - destruct (lock_order_respected linkedTop topRoot [])
      as (_ & _ & _ & _ & _ & _ & _ & _ & _ & _ & _ & _ & _ & _ & _ & Hf).
    apply Hf; [|reflexivity].
    intros H. apply (f_equal (λ m, m !! "x")) in H. vm_compute in H.
    discriminate.
  - destruct (lock_order_respected pendingSub subParent [])
      as (_ & _ & _ & _ & _ & _ & _ & _ & _ & _ & Hs & _).
    apply Hs.
Defined.

(** * Mode and modification time: the result *)

Lemma getNode_settings clean d w :
  uio.set_links (uio.links (unixfsDir d)) (unixfsDir (getNode clean d w).1.2)
    = unixfsDir d.
Proof.
  rewrite getNode_loop.
  pose proof (cacheSync_loop_spec (name d) (ctx d) (unixfsDir d)
                (entriesCache d) (emit (EvLock (name d)) w) (entriesCache d))
    as Hspec.
  simpl in Hspec. destruct (Hspec (λ k e H, H)) as (_ & _ & _ & Hd).
  clear Hspec. destruct (map_fold _ _ _) as [[[err u] cache] w1].
  simpl in *.
  destruct (getNodeTail _ _ _) as [[r d1] w2] eqn:H.
  by destruct (getNodeTail_inv _ _ _ _ _ _ H) as (-> & _).
Qed.

Lemma setNodeData_ok data lks d p w d' p' w' :
  setNodeData data lks d p w = (None, d', p', w') →
  ∃ db,
    uio.NewDirectoryFromNode (ProtoNode data lks nilBuilder) = Ok db ∧
    d' = set_unixfsDir
           (uio.SetMaxHAMTFanout (uio.maxHAMTFanout (unixfsDir d))
              (uio.SetMaxLinks (uio.maxLinks (unixfsDir d)) db)) d ∧
    ProtoNode data lks nilBuilder ∈ dagService w' ∧
    relinked (dagService w')
      (mkchild (name d) (ProtoNode data lks nilBuilder)) p p'.
Proof.
  unfold setNodeData, SetLinks, NodeWithData, DAGService_Add.
  destruct (ctxErr (ctx d)); [congruence|].
  destruct (updateChildEntry _ p _) as [[e p1] w1] eqn:Hu.
  destruct e as [e|]; [congruence|].
  destruct (uio.NewDirectoryFromNode _) as [db|e] eqn:Hdb; [|congruence].
  intros H. injection H as <- <- <-. exists db.
  split; [done|]. split; [done|].
  pose proof (updateChildEntry_grows p
                (mkchild (name d) (ProtoNode data lks nilBuilder))
                (emit (EvParentCall (name d))
                   (mkWorld (ProtoNode data lks nilBuilder :: dagService w)
                      (events w)))) as Hg.
  rewrite Hu in Hg. simpl. split.
  - eapply grows_elem; [exact Hg|]. apply list_elem_of_here.
  - exact (updateChildEntry_relinked p _ _ _ _ Hu).
Qed.

Lemma setNodeData_err data lks d p w e d' p' w' :
  setNodeData data lks d p w = (Some e, d', p', w') → d' = d.
Proof.
  unfold setNodeData.
  destruct (DAGService_Add _ _ _) as [e1 w1].
  destruct e1 as [e1|]; [congruence|].
  destruct (updateChildEntry _ p _) as [[e2 p2] w2].
  destruct e2 as [e2|]; [congruence|].
  destruct (uio.NewDirectoryFromNode _) as [db|e3]; congruence.
Qed.

(** The node [GetNode] returns is a directory node with the links and the
    stat fields of the backing directory. *)
Lemma getNode_ok_node clean d w nd d' w' :
  getNode clean d w = (Ok nd, d', w') →
  nd = ProtoNode
         (Some (ft.mkFSNode (if uio.sharded (unixfsDir d') then ft.THAMTShard
                             else ft.TDirectory)
                            (uio.mode (unixfsDir d'))
                            (uio.modTime (unixfsDir d')) 0))
         (uio.links (unixfsDir d')) (uio.cidBuilder (unixfsDir d')).
Proof.
  intros H. destruct (getNode_ok_stored _ _ _ _ _ _ H) as (Hn & _).
  unfold uio.GetNode in Hn. by injection Hn as <-.
Qed.

(** X10: what a successful [SetMode] leaves behind.  The backing directory
    is rebuilt over a new node: it has the links, the modification time and
    the kind the directory had after [GetNode], the mode asked for and the
    two limits of the directory, while its CID builder is the one of the
    rebuilt node, not the one the directory had; the cache is as [GetNode]
    left it.  The new node is in the DAG service and has travelled up to
    the root. *)
Theorem set_mode_result (md : N) (d : Directory) (p : Parent) (w : World)
    (d' : Directory) (p' : Parent) (w' : World) :
  SetMode md d p w = (None, d', p', w') →
  let d1 := (GetNode d w).1.2 in
  let u1 := unixfsDir d1 in
  d' = set_unixfsDir
         (uio.mkDirectory (uio.links u1) (uio.maxLinks (unixfsDir d))
            (uio.maxHAMTFanout (unixfsDir d)) nilBuilder md (uio.modTime u1)
            (uio.sharded u1)) d1 ∧
  ∃ nd, uio.GetNode (unixfsDir d') = Ok nd ∧
        Node_Links nd = uio.links u1 ∧
        (∃ fsn, ExtractFSNode nd = Ok fsn ∧ ft.Mode fsn = md) ∧
        nd ∈ dagService w' ∧
        relinked (dagService w') (mkchild (name d) nd) p p'.
Proof.
  unfold SetMode, GetNode.
  pose proof (getNode_settings false d w) as Hset.
  pose proof (getNode_name false d w) as [Hname _].
  destruct (getNode false d w) as [[r d1] w1] eqn:Hg. simpl in Hset, Hname.
  destruct r as [nd0|e]; [|congruence].
  rewrite (getNode_ok_node _ _ _ _ _ _ Hg). simpl.
  destruct (setNodeData _ _ d1 p w1) as [[[e d2] p2] w2] eqn:Hs.
  destruct e as [e|]; [congruence|].
  intros H. injection H as <- <- <-.
  destruct (setNodeData_ok _ _ _ _ _ _ _ _ Hs) as (db & Hdb & -> & Hin & Hr).
  assert (uio.maxLinks (unixfsDir d1) = uio.maxLinks (unixfsDir d)) as Hml
    by (by rewrite <- Hset).
  assert (uio.maxHAMTFanout (unixfsDir d1) = uio.maxHAMTFanout (unixfsDir d))
    as Hmf by (by rewrite <- Hset).
  rewrite Hname in Hr.
  destruct d1 as [n1 cx1 [l1 ml1 mf1 b1 m1 t1 sh1] cache1]. simpl in *.
  assert (db = uio.mkDirectory l1 0 0 nilBuilder md t1 sh1) as ->.
  { destruct sh1; simpl in Hdb; by injection Hdb as <-. }
  unfold uio.SetStat, uio.SetMaxLinks, uio.SetMaxHAMTFanout, set_unixfsDir.
  simpl. rewrite ?Z.eqb_refl, Hml, Hmf.
  assert ((if (0 <? md)%N then md else md) = md) as -> by by destruct (_ <? _)%N.
  split; [done|]. eexists. split; [reflexivity|]. simpl.
  split; [done|]. split; [by eexists|].
  destruct sh1; simpl in *; by split.
Qed.

Lemma set_mode_result_witness :
  ∃ d' p' w' nd,
    SetMode 7 pendingSub subParent w0 = (None, d', p', w') ∧
    uio.GetNode (unixfsDir d') = Ok nd ∧
    Node_Links nd = {["f" := fileNode]} ∧
    uio.mode (unixfsDir d') = 7%N ∧
    uio.cidBuilder (unixfsDir d') = nilBuilder ∧
    is_Some (entriesCache d' !! "f").
Proof.
  eexists _, _, _.
  destruct (set_mode_result 7 pendingSub subParent w0 _ _ _ eq_refl)
    as (Hd & nd & Hn & Hl & _).
  exists nd. split; [reflexivity|]. split; [exact Hn|].
  split; [exact Hl|]. rewrite Hd. split; [reflexivity|].
  split; [reflexivity|]. by eexists.
Defined.

(** X11: the same for [SetModTime]: the mode is kept and the modification
    time is the one asked for. *)
Theorem set_mod_time_result (ts : Z) (d : Directory) (p : Parent)
    (w : World) (d' : Directory) (p' : Parent) (w' : World) :
  SetModTime ts d p w = (None, d', p', w') →
  let d1 := (GetNode d w).1.2 in
  let u1 := unixfsDir d1 in
  d' = set_unixfsDir
         (uio.mkDirectory (uio.links u1) (uio.maxLinks (unixfsDir d))
            (uio.maxHAMTFanout (unixfsDir d)) nilBuilder (uio.mode u1) ts
            (uio.sharded u1)) d1 ∧
  ∃ nd, uio.GetNode (unixfsDir d') = Ok nd ∧
        Node_Links nd = uio.links u1 ∧
        (∃ fsn, ExtractFSNode nd = Ok fsn ∧ ft.ModTime fsn = ts) ∧
        nd ∈ dagService w' ∧
        relinked (dagService w') (mkchild (name d) nd) p p'.
Proof.
  unfold SetModTime, GetNode.
  pose proof (getNode_settings false d w) as Hset.
  pose proof (getNode_name false d w) as [Hname _].
  destruct (getNode false d w) as [[r d1] w1] eqn:Hg. simpl in Hset, Hname.
  destruct r as [nd0|e]; [|congruence].
  rewrite (getNode_ok_node _ _ _ _ _ _ Hg). simpl.
  destruct (setNodeData _ _ d1 p w1) as [[[e d2] p2] w2] eqn:Hs.
  destruct e as [e|]; [congruence|].
  intros H. injection H as <- <- <-.
  destruct (setNodeData_ok _ _ _ _ _ _ _ _ Hs) as (db & Hdb & -> & Hin & Hr).
  assert (uio.maxLinks (unixfsDir d1) = uio.maxLinks (unixfsDir d)) as Hml
    by (by rewrite <- Hset).
  assert (uio.maxHAMTFanout (unixfsDir d1) = uio.maxHAMTFanout (unixfsDir d))
    as Hmf by (by rewrite <- Hset).
  rewrite Hname in Hr.
  destruct d1 as [n1 cx1 [l1 ml1 mf1 b1 m1 t1 sh1] cache1]. simpl in *.
  assert (db = uio.mkDirectory l1 0 0 nilBuilder m1 ts sh1) as ->.
  { destruct sh1; simpl in Hdb; by injection Hdb as <-. }
  unfold uio.SetStat, uio.SetMaxLinks, uio.SetMaxHAMTFanout, set_unixfsDir.
  simpl. rewrite Hml, Hmf.
  assert ((if (ts =? 0)%Z then ts else ts) = ts) as -> by by destruct (_ =? _)%Z.
  split; [done|]. eexists. split; [reflexivity|]. simpl.
  split; [done|]. split; [by eexists|].
  destruct sh1; simpl in *; by split.
Qed.

Lemma set_mod_time_result_witness :
  ∃ d' p' w' nd,
    SetModTime 1700000000 pendingSub subParent w0 = (None, d', p', w') ∧
    uio.GetNode (unixfsDir d') = Ok nd ∧
    Node_Links nd = {["f" := fileNode]} ∧
    uio.modTime (unixfsDir d') = 1700000000%Z.
Proof.
  eexists _, _, _.
  destruct (set_mod_time_result 1700000000 pendingSub subParent w0 _ _ _
              eq_refl) as (Hd & nd & Hn & Hl & _).
  exists nd. split; [reflexivity|]. split; [exact Hn|].
  split; [exact Hl|]. rewrite Hd. reflexivity.
Defined.

(** X12: a failure after [GetNode] changes nothing in the directory.  When
    [setNodeData] fails the directory is as it was, and when [SetMode] or
    [SetModTime] fails the directory is as [GetNode] left it: the backing
    directory is replaced only after the parent has been updated with
    success. *)
Theorem set_stat_failure (d : Directory) (p : Parent) (w : World) :
  (∀ data lks e d' p' w',
     setNodeData data lks d p w = (Some e, d', p', w') → d' = d) ∧
  (∀ md e d' p' w',
     SetMode md d p w = (Some e, d', p', w') → d' = (GetNode d w).1.2) ∧
  (∀ ts e d' p' w',
     SetModTime ts d p w = (Some e, d', p', w') → d' = (GetNode d w).1.2).
Proof.
  split; [|split].
  - intros data lks e d' p' w'. apply setNodeData_err.
  - intros md e d' p' w'. unfold SetMode.
    destruct (GetNode d w) as [[r d1] w1]. simpl.
    destruct r as [nd|e1]; [|congruence].
    destruct (ExtractFSNode nd) as [fsn|e1]; [|congruence]. simpl.
    destruct (setNodeData _ _ d1 p w1) as [[[e1 d2] p2] w2] eqn:Hs.
    destruct e1 as [e1|]; [|congruence].
    intros H. injection H as _ <- _ _. by eapply setNodeData_err.
  - intros ts e d' p' w'. unfold SetModTime.
    destruct (GetNode d w) as [[r d1] w1]. simpl.
    destruct r as [nd|e1]; [|congruence].
    destruct (ExtractFSNode nd) as [fsn|e1]; [|congruence]. simpl.
    destruct (setNodeData _ _ d1 p w1) as [[[e1 d2] p2] w2] eqn:Hs.
    destruct e1 as [e1|]; [|congruence].
    intros H. injection H as _ <- _ _. by eapply setNodeData_err.
Qed.

Lemma set_stat_failure_witness :
  ∃ d' p' w',
    SetMode 7 pendingSub cancelledParent w0 = (Some ErrCanceled, d', p', w') ∧
    d' = (GetNode pendingSub w0).1.2 ∧
    uio.mode (unixfsDir d') = 0%N.
Proof.
  eexists _, _, _. split; [reflexivity|].
  destruct (set_stat_failure pendingSub cancelledParent w0) as (_ & Hm & _).
  split; [exact (Hm 7%N _ _ _ _ eq_refl)|reflexivity].
Defined.

(** * Listing *)

Lemma ForEachLink_names (ls : list (string * Node)) : ∀ out : list string,
  fold_left (λ (acc : option error * list string) l,
               match acc with
               | (Some _, _) => acc
               | (None, s) => (None, (s ++ [l.1])%list)
               end) ls (None, out)
  = (None, (out ++ ls.*1)%list).
Proof.
  induction ls as [|l ls IH]; intros out; simpl.
  - by rewrite app_nil_r.
  - by rewrite IH, <- app_assoc.
Qed.

(** X13: [ListNames] reads the links of the backing directory and nothing
    else: over a live context it returns the linked names, each once, in
    the order of the iteration, so a name that is cached but not yet
    synchronised is not listed; over a cancelled context it fails.  It only
    takes and releases the lock. *)
Theorem ListNames_links (c : Context) (d : Directory) (w : World) :
  ListNames c d w =
    (match ctxErr c with
     | Some e => Err e
     | None => Ok (uio.Links (unixfsDir d)).*1
     end, locked d w) ∧
  NoDup (uio.Links (unixfsDir d)).*1 ∧
  ∀ k, k ∈ (uio.Links (unixfsDir d)).*1 ↔
       is_Some (uio.links (unixfsDir d) !! k).
Proof.
  split; [|split].
  - unfold ListNames, uio.ForEachLink, locked.
    destruct (ctxErr c) as [e|]; [done|].
    by rewrite ForEachLink_names.
  - apply NoDup_fst_map_to_list.
  - intros k. unfold uio.Links. rewrite list_elem_of_fmap. split.
    + intros ([k' nd] & -> & H). apply elem_of_map_to_list in H. by eexists.
    + intros [nd H]. exists (k, nd). split; [done|].
      by apply elem_of_map_to_list.
Qed.

Lemma forEachEntryStep_spec {A} (f : NodeListing → A → option error * A)
    l d w a :
  let r := forEachEntryStep f l (d, w, a) in
  unixfsDir r.2.1.1 = unixfsDir d ∧
  (∀ k, is_Some (entriesCache d !! k) →
        is_Some (entriesCache r.2.1.1 !! k)) ∧
  (r.1 = None → is_Some (entriesCache r.2.1.1 !! l.1)).
Proof.
  unfold forEachEntryStep.
  destruct (childUnsync l.1 d) as [r d1] eqn:Hc.
  assert (unixfsDir d1 = unixfsDir d ∧
          ∀ k, is_Some (entriesCache d !! k) →
               is_Some (entriesCache d1 !! k)) as [Hu Hk].
  { destruct (childUnsync_cases l.1 d)
      as [(e & He & _)|[(m & Hm & _)|(m & Hm & _)]];
      rewrite Hc in Hm || rewrite Hc in He.
    - by injection He as _ ->.
    - by injection Hm as _ ->.
    - injection Hm as _ ->. split; [done|]. intros k Hk. simpl.
      destruct (decide (k = l.1)) as [->|Hne].
      + rewrite lookup_insert_eq. by eexists.
      + by rewrite lookup_insert_ne. }
  destruct r as [c|e]; [|done].
  destruct (FSNode_GetNode _ _ _) as [[r c'] w1].
  assert (∀ k, is_Some (entriesCache d !! k) →
               is_Some (<[l.1:=c']> (entriesCache d1) !! k)) as Hk'.
  { intros k H. destruct (decide (k = l.1)) as [->|Hne].
    - rewrite lookup_insert_eq. by eexists.
    - rewrite lookup_insert_ne; [|done]. by apply Hk. }
  assert (is_Some (<[l.1:=c']> (entriesCache d1) !! l.1)) as Hl.
  { rewrite lookup_insert_eq. by eexists. }
  destruct r as [nd|e]; [|done]. simpl.
  destruct c' as [ch|fi].
  - by destruct (f _ a) as [e a'].
  - destruct (File_Size fi) as [size|e]; [|done].
    by destruct (f _ a) as [e a'].
Qed.

(** The step of [List] adds one listing, under the name of the link. *)
Lemma List_step_names l d w (out : list NodeListing) :
  let r := forEachEntryStep (λ nl out, (None, (out ++ [nl])%list)) l
             (d, w, out) in
  r.1 = None → map nlName r.2.2 = (map nlName out ++ [l.1])%list.
Proof.
  unfold forEachEntryStep.
  destruct (childUnsync l.1 d) as [r d1].
  destruct r as [c|e]; [|done].
  destruct (FSNode_GetNode _ _ _) as [[r c'] w1].
  destruct r as [nd|e]; [|done]. simpl.
  destruct c' as [ch|fi]; simpl.
  - intros _. by rewrite map_app.
  - destruct (File_Size fi) as [size|e]; [|done]. simpl.
    intros _. by rewrite map_app.
Qed.

Lemma List_loop (ls : list (string * Node)) :
  ∀ (e : option error) (d : Directory) (w : World) (out : list NodeListing),
  let r := fold_left
             (λ acc l, match acc with
                       | (Some _, _) => acc
                       | (None, s) =>
                           forEachEntryStep
                             (λ nl out, (None, (out ++ [nl])%list)) l s
                       end) ls (e, (d, w, out)) in
  unixfsDir r.2.1.1 = unixfsDir d ∧
  (∀ k, is_Some (entriesCache d !! k) →
        is_Some (entriesCache r.2.1.1 !! k)) ∧
  (r.1 = None →
   e = None ∧
   map nlName r.2.2 = (map nlName out ++ ls.*1)%list ∧
   ∀ k, k ∈ ls.*1 → is_Some (entriesCache r.2.1.1 !! k)).
Proof.
  induction ls as [|l ls IH]; intros e d w out.
  { simpl. split; [done|]. split; [done|]. intros ->.
    split; [done|]. rewrite app_nil_r. split; [done|].
    intros k Hk. by apply elem_of_nil in Hk. }
  cbn [fold_left]. destruct e as [e|].
  { destruct (IH (Some e) d w out) as (Hu & Hk & Hn).
    split; [done|]. split; [done|]. intros H. by destruct (Hn H). }
  destruct (forEachEntryStep_spec (λ nl out, (None, (out ++ [nl])%list))
              l d w out) as (Hu1 & Hk1 & Hl1).
  pose proof (List_step_names l d w out) as Hn1.
  destruct (forEachEntryStep _ l (d, w, out)) as [e1 [[d1 w1] out1]].
  cbn [fst snd] in *.
  destruct (IH e1 d1 w1 out1) as (Hu & Hk & Hn).
  split; [congruence|]. split; [by auto|].
  intros H. destruct (Hn H) as (-> & Hnames & Hc).
  split; [done|]. split.
  - rewrite Hnames, (Hn1 eq_refl), <- app_assoc. done.
  - intros k Hkin. rewrite fmap_cons in Hkin.
    apply elem_of_cons in Hkin as [->|Hkin]; [|by apply Hc].
    apply Hk, Hl1. done.
Qed.

(** X14: a successful [List] returns one listing for every link of the
    backing directory, in the order of [ListNames]; it leaves the backing
    directory as it was, and it has materialised every child: every linked
    name is cached afterwards, and what was cached stays cached. *)
Theorem List_result (c : Context) (d : Directory) (w : World)
    (d' : Directory) (w' : World) (out : list NodeListing) :
  List c d w = (None, d', w', out) →
  map nlName out = (uio.Links (unixfsDir d)).*1 ∧
  unixfsDir d' = unixfsDir d ∧
  (∀ k, is_Some (uio.links (unixfsDir d) !! k) →
        is_Some (entriesCache d' !! k)) ∧
  (∀ k, is_Some (entriesCache d !! k) → is_Some (entriesCache d' !! k)).
Proof.
  unfold List, ForEachEntry, uio.ForEachLink.
  destruct (ctxErr c) as [e|]; [simpl; congruence|].
  pose proof (List_loop (uio.Links (unixfsDir d)) None d
                (emit (EvLock (name d)) w) []) as Hl.
  simpl in Hl.
  destruct (fold_left _ _ _) as [e [[d1 w1] out1]]. simpl in Hl.
  intros H. injection H as -> <- _ <-.
  destruct Hl as (Hu & Hk & Hn). destruct (Hn eq_refl) as (_ & Hnames & Hc).
  split; [done|]. split; [done|]. split; [|done].
  intros k [nd Hnd]. apply Hc. unfold uio.Links.
  apply list_elem_of_fmap. exists (k, nd). split; [done|].
  by apply elem_of_map_to_list.
Qed.

Lemma List_result_witness :
  ∃ d' w' out,
    List Background linkedTop w0 = (None, d', w', out) ∧
    length out = 2%nat ∧
    is_Some (entriesCache d' !! "a") ∧ is_Some (entriesCache d' !! "x").
Proof.
  eexists _, _, _. split; [reflexivity|].
  destruct (List_result Background linkedTop w0 _ _ _ eq_refl)
    as (_ & _ & Hc & _).
  split; [reflexivity|]. split; apply Hc; by eexists.
Defined.

(** * The DAG service *)

Lemma setNodeData_grows data lks d p w :
  grows w (setNodeData data lks d p w).2.
Proof.
  unfold setNodeData.
  pose proof (grows_Add (ctx d) (SetLinks lks (NodeWithData data)) w) as Ha.
  destruct (DAGService_Add _ _ _) as [e w1]. simpl in Ha.
  destruct e as [e|]; [done|].
  pose proof (updateChildEntry_grows p
                (mkchild (name d) (SetLinks lks (NodeWithData data)))
                (emit (EvParentCall (name d)) w1)) as Hu.
  destruct (updateChildEntry _ p _) as [[e p'] w2]. simpl in Hu.
  assert (grows w w2) as Hw by (eapply grows_trans; [exact Ha | exact Hu]).
  destruct e as [e|]; [done|].
  by destruct (uio.NewDirectoryFromNode _).
Qed.

Lemma SetMode_grows md d p w : grows w (SetMode md d p w).2.
Proof.
  unfold SetMode, GetNode. pose proof (getNode_grows d false w) as Hg.
  destruct (getNode false d w) as [[r d1] w1]. simpl in Hg.
  destruct r as [nd|e]; [|done].
  destruct (ExtractFSNode nd) as [fsn|e]; [|done]. simpl.
  pose proof (setNodeData_grows (Some (ft_SetMode md fsn)) (Node_Links nd)
                d1 p w1) as Hs.
  destruct (setNodeData _ _ _ _ _) as [[[e d2] p2] w2]. simpl in Hs.
  assert (grows w w2) by (eapply grows_trans; eauto).
  by destruct e.
Qed.

Lemma SetModTime_grows ts d p w : grows w (SetModTime ts d p w).2.
Proof.
  unfold SetModTime, GetNode. pose proof (getNode_grows d false w) as Hg.
  destruct (getNode false d w) as [[r d1] w1]. simpl in Hg.
  destruct r as [nd|e]; [|done].
  destruct (ExtractFSNode nd) as [fsn|e]; [|done]. simpl.
  pose proof (setNodeData_grows (Some (ft_SetModTime ts fsn)) (Node_Links nd)
                d1 p w1) as Hs.
  destruct (setNodeData _ _ _ _ _) as [[[e d2] p2] w2]. simpl in Hs.
  assert (grows w w2) by (eapply grows_trans; eauto).
  by destruct e.
Qed.

(** X8: no operation of a directory removes a node from the DAG service:
    after [Flush], [updateChildEntry], [getNode], [MkdirWithOpts],
    [AddChild], [ForEachEntry], [SetMode], [SetModTime] and [setNodeData]
    the service holds every node it held before, and [Child], [Uncache],
    [Unlink] and [ListNames] do not write it at all. *)
Theorem dag_service_only_grows (d : Directory) (p : Parent) (w : World) :
  grows w (Flush d p w).2 ∧
  (∀ c, grows w (updateChildEntry c p w).2) ∧
  (∀ clean, grows w (getNode clean d w).2) ∧
  (∀ nm opts, grows w (MkdirWithOpts nm opts d w).2) ∧
  (∀ nm nd, grows w (AddChild nm nd d w).2) ∧
  (∀ A c (f : NodeListing → A → option error * A) a,
     grows w (ForEachEntry c f d w a).1.2) ∧
  (∀ md, grows w (SetMode md d p w).2) ∧
  (∀ ts, grows w (SetModTime ts d p w).2) ∧
  (∀ data lks, grows w (setNodeData data lks d p w).2) ∧
  (∀ nm, dagService (Child nm d w).2 = dagService w) ∧
  (∀ nm, dagService (Uncache nm d w).2 = dagService w) ∧
  (∀ nm, dagService (Unlink nm d w).2 = dagService w) ∧
  (∀ c, dagService (ListNames c d w).2 = dagService w).
Proof.
  split; [apply Flush_grows|].
  split; [intros c; apply updateChildEntry_grows|].
  split; [intros clean; apply getNode_grows|].
  split; [intros nm opts; apply MkdirWithOpts_grows|].
  split.
  { intros nm nd. unfold AddChild. destruct (childUnsync nm d) as [r d1].
    destruct r as [n|e]; [by exists []|].
    pose proof (grows_Add (ctx d1) nd (emit (EvLock (name d)) w)) as Hs.
    destruct (DAGService_Add _ _ _) as [e' w1]. simpl in Hs.
    destruct e'; [exact Hs|]. destruct (uio.AddChild _ _ _ _). exact Hs. }
  split; [intros A c f a; apply ForEachEntry_grows|].
  split; [intros md; apply SetMode_grows|].
  split; [intros ts; apply SetModTime_grows|].
  split; [intros data lks; apply setNodeData_grows|].
  split; [intros nm; by rewrite Child_eq|].
  split; [done|].
  split; [intros nm; by rewrite Unlink_eq|].
  intros c. unfold ListNames.
  destruct (uio.ForEachLink _ _ _ _) as [e out]. by destruct e.
Qed.


(** * The invariant of the cache *)

Lemma wf_inv d :
  wf d →
  (∀ k e, entriesCache d !! k = Some e →
     FSNode_name e = k ∧ is_Some (uio.links (unixfsDir d) !! k)) ∧
  (∀ k c, entriesCache d !! k = Some (IsDir c) → ctx c = ctx d ∧ wf c).
Proof. by inversion 1. Qed.

Lemma wf_empty d : entriesCache d = ∅ → wf d.
Proof.
  intros He. constructor; intros k e; rewrite He, lookup_empty; done.
Qed.

(** Caching a well-formed overlay under its own, linked name. *)
Lemma wf_cached nm e d :
  wf d →
  FSNode_name e = nm →
  is_Some (uio.links (unixfsDir d) !! nm) →
  (∀ c, e = IsDir c → ctx c = ctx d ∧ wf c) →
  wf (cached nm e d).
Proof.
  intros Hwf Hn Hl He. destruct (wf_inv d Hwf) as [H1 H2].
  constructor; simpl.
  - intros k e' Hk. apply lookup_insert_Some in Hk as [[<- <-]|[Hne Hk]];
      [done|exact (H1 k e' Hk)].
  - intros k c Hk. apply lookup_insert_Some in Hk as [[<- Heq]|[Hne Hk]];
      [by apply He|exact (H2 k c Hk)].
Qed.

(** Writing links that keep every linked name linked. *)
Lemma wf_links (l : gmap string Node) d :
  wf d →
  (∀ k, is_Some (uio.links (unixfsDir d) !! k) → is_Some (l !! k)) →
  wf (set_unixfsDir (uio.set_links l (unixfsDir d)) d).
Proof.
  intros Hwf Hl. destruct (wf_inv d Hwf) as [H1 H2].
  constructor; simpl.
  - intros k e Hk. destruct (H1 k e Hk). split; [done|]. by apply Hl.
  - intros k c Hk. exact (H2 k c Hk).
Qed.

Lemma is_Some_insert {A} (m : gmap string A) i x k :
  is_Some (m !! k) → is_Some (<[i := x]> m !! k).
Proof.
  intros H. destruct (decide (i = k)) as [->|Hne].
  - rewrite lookup_insert_eq. by eexists.
  - by rewrite lookup_insert_ne.
Qed.

Lemma cacheNode_wf nm nd d e d' :
  cacheNode nm nd d = (Ok e, d') →
  FSNode_name e = nm ∧ (∀ c, e = IsDir c → ctx c = ctx d ∧ wf c) ∧
  d' = cached nm e d.
Proof.
  destruct (cacheNode_cases nm nd d) as [[e0 ->]|[n Hn]];
    [intros H; discriminate H|].
  rewrite Hn. intros H. injection H as <- <-. split; [|split; [|done]].
  - revert Hn. unfold cacheNode, NewDirectory, uio.NewDirectoryFromNode,
      NewFile.
    destruct nd as [[fsn|] lks b| |]; simpl;
      try (intros H; discriminate H);
      [|by intros H; injection H as <-].
    destruct fsn as [ty md mt fs]; destruct ty; simpl;
      intros H; try discriminate H; by injection H as <-.
  - intros c ->. revert Hn. unfold cacheNode, NewDirectory,
      uio.NewDirectoryFromNode, NewFile.
    destruct nd as [[fsn|] lks b| |]; simpl;
      try (intros H; discriminate H).
    destruct fsn as [ty md mt fs]; destruct ty; simpl;
      intros H; try discriminate H;
      injection H as <-; (split; [reflexivity|]);
      apply wf_empty; reflexivity.
Qed.
Lemma childUnsync_wf nm d :
  wf d → wf (childUnsync nm d).2.
Proof.
  intros Hwf. unfold childUnsync.
  destruct (entriesCache d !! nm) as [e|] eqn:Hc; [exact Hwf|].
  unfold childFromDag, uio.Find.
  destruct (ctxErr (ctx d)); [exact Hwf|].
  destruct (uio.links (unixfsDir d) !! nm) as [nd|] eqn:Hl; [|exact Hwf].
  destruct (cacheNode_cases nm nd d) as [[e0 He]|[n Hn]].
  - rewrite He. exact Hwf.
  - destruct (cacheNode_wf _ _ _ _ _ Hn) as (H1 & H2 & _).
    rewrite Hn. cbn [snd]. apply wf_cached.
    + exact Hwf.
    + exact H1.
    + rewrite Hl. eexists. reflexivity.
    + exact H2.
Qed.
(** The entries the loop of [cacheSync] leaves in the cache are the
    entries it found or what their [GetNode] made of them, and no link is
    lost. *)
Lemma cacheSync_loop_entries n cx u0 (c0 : gmap string FSNode) w00
    (m : gmap string FSNode) :
  let r := map_fold (cacheSyncStep GetNode n cx) (None, u0, c0, w00) m in
  (∀ k e, m !! k = Some e → c0 !! k = Some e) →
  (∀ k e', r.1.2 !! k = Some e' →
     c0 !! k = Some e' ∨
     ∃ e w, c0 !! k = Some e ∧ e' = (FSNode_GetNode GetNode e w).1.2) ∧
  (∀ k, is_Some (uio.links u0 !! k) → is_Some (uio.links r.1.1.2 !! k)).
Proof.
  apply (map_fold_weak_ind
    (λ (r : SyncState) (m : gmap string FSNode),
       (∀ k e, m !! k = Some e → c0 !! k = Some e) →
       (∀ k e', r.1.2 !! k = Some e' →
          c0 !! k = Some e' ∨
          ∃ e w, c0 !! k = Some e ∧ e' = (FSNode_GetNode GetNode e w).1.2) ∧
       (∀ k, is_Some (uio.links u0 !! k) →
             is_Some (uio.links r.1.1.2 !! k)))).
  - intros _. simpl. split; [by left|done].
  - intros i x m' [[[err u] cache] w] Hi IH Hsub.
    destruct IH as (IHa & IHb).
    { intros k e Hk. apply Hsub. rewrite lookup_insert_ne; [done|].
      intros ->. congruence. }
    simpl in IHa, IHb.
    assert (c0 !! i = Some x) as Hc0
      by (apply Hsub; by rewrite lookup_insert_eq).
    destruct (cacheSyncStep_spec n cx i x err u cache w)
      as [[Herr ->]|(-> & res & x' & w1 & Hget & Hstep)]; [done|].
    assert (∀ k e', <[i:=x']> cache !! k = Some e' →
              c0 !! k = Some e' ∨
              ∃ e w, c0 !! k = Some e ∧
                     e' = (FSNode_GetNode GetNode e w).1.2) as Hcache.
    { intros k e' Hk. apply lookup_insert_Some in Hk as [[<- <-]|[Hne Hk]];
        [|by apply IHa].
      right. exists x, (emit (EvChildCall n i "GetNode") w).
      by rewrite Hget. }
    destruct res as [nd|e]; rewrite Hstep; simpl; (split; [done|]);
      [|done].
    intros k Hk. destruct (AddChild_fields cx i nd u) as (_ & Hok & Hko).
    destruct ((uio.AddChild cx i nd u).1) eqn:He.
    + rewrite Hko by done. by apply IHb.
    + rewrite Hok by done. by apply is_Some_insert, IHb.
Qed.

(** [getNode] keeps the invariant of the cache. *)
Lemma getNode_wf d : wf d → ∀ clean w, wf (getNode clean d w).1.2.
Proof.
  induction d as [d IH] using Directory_cache_ind. intros Hwf clean w.
  destruct (wf_inv d Hwf) as [H1 H2].
  rewrite getNode_loop.
  pose proof (cacheSync_loop_entries (name d) (ctx d) (unixfsDir d)
                (entriesCache d) (emit (EvLock (name d)) w) (entriesCache d))
    as Hspec.
  simpl in Hspec. destruct (Hspec (λ k e H, H)) as (Ha & Hb).
  clear Hspec. destruct (map_fold _ _ _) as [[[err u] cache] w1].
  simpl in *.
  destruct (getNodeTail _ _ _) as [[r d1] w2] eqn:H.
  destruct (getNodeTail_inv _ _ _ _ _ _ H) as (-> & _). simpl.
  assert (wf (mkDirectory (name d) (ctx d) u cache)) as Hfull.
  { constructor; simpl.
    - intros k e' Hk. destruct (Ha k e' Hk) as [Hc|(e & w' & Hc & ->)].
      + destruct (H1 k e' Hc). split; [done|]. by apply Hb.
      + destruct (H1 k e Hc) as [Hn Hl]. split; [|by apply Hb].
        destruct (FSNode_GetNode GetNode e w') as [[r' e''] w''] eqn:Hg.
        destruct (FSNode_GetNode_entryNode _ _ _ _ _ Hg) as (_ & _ & Hn' & _).
        cbn [fst snd]. by rewrite Hn'.
    - intros k c' Hk. destruct (Ha k _ Hk) as [Hc|(e & w' & Hc & He)].
      + exact (H2 k c' Hc).
      + destruct e as [c|fi]; simpl in He.
        * destruct (H2 k c Hc) as [Hctx Hwfc].
          pose proof (IH k c Hc Hwfc false w') as Hwf'.
          pose proof (getNode_name false c w') as [_ Hcx].
          unfold GetNode in He.
          destruct (getNode false c w') as [[r' c''] w''].
          simpl in *. injection He as ->. split; [congruence|done].
        * discriminate. }
  destruct err as [e|]; [done|]. destruct clean; [by apply wf_empty|done].
Qed.


Lemma wf_uncached nm d :
  wf d → wf (set_entriesCache (delete nm (entriesCache d)) d).
Proof.
  intros Hwf. destruct (wf_inv d Hwf) as [H1 H2]. constructor; simpl.
  - intros k e Hk. apply lookup_delete_Some in Hk as [_ Hk].
    exact (H1 k e Hk).
  - intros k c Hk. apply lookup_delete_Some in Hk as [_ Hk].
    exact (H2 k c Hk).
Qed.

Lemma FSNode_GetNode_wf d k e w :
  wf d → entriesCache d !! k = Some e →
  let e' := (FSNode_GetNode GetNode e w).1.2 in
  FSNode_name e' = k ∧ (∀ c, e' = IsDir c → ctx c = ctx d ∧ wf c).
Proof.
  intros Hwf Hk. destruct (wf_inv d Hwf) as [H1 H2].
  destruct (H1 k e Hk) as [Hn _]. destruct e as [c|fi]; simpl.
  - destruct (H2 k c Hk) as [Hctx Hwfc].
    pose proof (getNode_wf c Hwfc false w) as Hwf'.
    pose proof (getNode_name false c w) as [Hnm Hcx].
    unfold GetNode. destruct (getNode false c w) as [[r c'] w'].
    simpl in *. split; [congruence|].
    intros c0 Hc0. injection Hc0 as <-. split; [congruence|exact Hwf'].
  - split; [exact Hn|]. intros c0 Hc0. discriminate Hc0.
Qed.

Lemma Unlink_wf nm d w : wf d → wf (Unlink nm d w).1.2.
Proof.
  intros Hwf. rewrite Unlink_eq. cbn [fst snd].
  pose proof (wf_uncached nm d Hwf) as Hu.
  destruct (wf_inv _ Hu) as [H1 H2]. simpl in H1, H2.
  unfold uio.RemoveChild. simpl.
  destruct (ctxErr (ctx d)); simpl; [exact Hu|].
  constructor; simpl.
  - intros k e Hk. destruct (H1 k e Hk) as [Hn Hl]. split; [exact Hn|].
    apply lookup_delete_Some in Hk as [Hne Hk].
    rewrite lookup_delete_ne; [exact Hl|exact Hne].
  - exact H2.
Qed.

Lemma AddChild_wf nm nd d w : wf d → wf (AddChild nm nd d w).1.2.
Proof.
  intros Hwf. unfold AddChild.
  pose proof (childUnsync_wf nm d Hwf) as Hc.
  destruct (childUnsync nm d) as [r d1]. cbn [snd] in Hc.
  destruct r as [n|e]; [exact Hc|].
  destruct (DAGService_Add _ _ _) as [e' w1].
  destruct e' as [e'|]; [exact Hc|].
  unfold uio.AddChild. destruct (ctxErr (ctx d1)); cbn [fst snd].
  - destruct d1 as [n1 c1 [] cache1]. exact Hc.
  - apply wf_links; [exact Hc|]. intros k. apply is_Some_insert.
Qed.

Lemma MkdirWithOpts_wf nm opts d w :
  wf d →
  wf (MkdirWithOpts nm opts d w).1.2 ∧
  ∀ c, (MkdirWithOpts nm opts d w).1.1.1 = Some c →
       name c = nm ∧ ctx c = ctx d ∧ wf c.
Proof.
  intros Hwf. unfold MkdirWithOpts.
  pose proof (childUnsync_wf nm d Hwf) as Hc.
  destruct (childUnsync nm d) as [fsn d1] eqn:Hcu. cbn [snd] in Hc.
  destruct fsn as [[c|fi]|e].
  - cbn [fst snd]. split; [exact Hc|]. intros c0 Hc0. injection Hc0 as <-.
    destruct (childUnsync_ok_cached _ _ _ _ Hcu) as (Hk & _ & _ & Hcx).
    destruct (wf_inv _ Hc) as [H1 H2].
    destruct (H1 nm _ Hk) as [Hn _]. destruct (H2 nm c Hk) as [Hctx Hwfc].
    split; [exact Hn|]. split; [congruence|exact Hwfc].
  - cbn [fst snd]. split; [exact Hc|]. intros c0 Hc0. discriminate Hc0.
  - destruct (childUnsync_err _ _ _ _ Hcu) as [-> _].
    unfold NewEmptyDirectory, uio.NewDirectory. simpl.
    destruct (DAGService_Add _ _ _) as [e' w1].
    destruct e' as [e'|].
    { cbn [fst snd]. split; [exact Hc|]. intros c0 Hc0. discriminate Hc0. }
    match goal with
    | |- context [GetNode ?x ?y] =>
        pose proof (getNode_wf x (wf_empty x eq_refl) false y) as Hwf';
        pose proof (getNode_name false x y) as [Hnm Hcx];
        unfold GetNode;
        destruct (getNode false x y) as [[r dirobj] w2]
    end.
    simpl in Hwf', Hnm, Hcx.
    destruct r as [ndir|e'];
      [|cbn [fst snd]; split; [exact Hc|]; intros c0 Hc0; discriminate Hc0].
    unfold uio.AddChild. destruct (ctxErr (ctx d)) eqn:Hctx.
    { cbn [fst snd]. split; [by destruct d as [? ? []]|].
      intros c0 Hc0. discriminate Hc0. }
    cbn [fst snd]. split.
    + apply (wf_cached nm (IsDir dirobj)
               (set_unixfsDir
                  (uio.set_links (<[nm:=ndir]> (uio.links (unixfsDir d)))
                     (unixfsDir d)) d)).
      * apply wf_links; [exact Hc|]. intros k. apply is_Some_insert.
      * exact Hnm.
      * simpl. rewrite lookup_insert_eq. eexists. reflexivity.
      * intros c0 Hc0. injection Hc0 as <-. split; [exact Hcx|exact Hwf'].
    + intros c0 Hc0. injection Hc0 as <-.
      split; [exact Hnm|]. split; [exact Hcx|exact Hwf'].
Qed.

Lemma forEachEntryStep_wf {A} (f : NodeListing → A → option error * A)
    l d w a :
  wf d → wf (forEachEntryStep f l (d, w, a)).2.1.1.
Proof.
  intros Hwf. unfold forEachEntryStep.
  pose proof (childUnsync_wf l.1 d Hwf) as Hc.
  destruct (childUnsync l.1 d) as [r d1] eqn:Hcu. cbn [snd] in Hc.
  destruct r as [c|e]; [|exact Hc].
  destruct (childUnsync_ok_cached _ _ _ _ Hcu) as (Hk & _).
  pose proof (FSNode_GetNode_wf d1 l.1 c
                (emit (EvChildCall (name d1) l.1 "GetNode") w) Hc Hk)
    as [Hn Hd].
  destruct (wf_inv _ Hc) as [H1 _]. destruct (H1 _ _ Hk) as [_ Hl].
  destruct (FSNode_GetNode _ _ _) as [[r c'] w1]. cbn [fst snd] in Hn, Hd.
  assert (wf (set_entriesCache (<[l.1:=c']> (entriesCache d1)) d1)) as Hw.
  { apply (wf_cached l.1 c' d1); [exact Hc|exact Hn|exact Hl|exact Hd]. }
  destruct r as [nd|e]; [|exact Hw]. simpl.
  destruct c' as [ch|fi].
  - destruct (f _ a) as [e a']. exact Hw.
  - destruct (File_Size fi) as [size|e]; [|exact Hw].
    destruct (f _ a) as [e a']. exact Hw.
Qed.

Lemma ForEachEntry_wf {A} c (f : NodeListing → A → option error * A)
    d w a :
  wf d → wf (ForEachEntry c f d w a).1.1.2.
Proof.
  intros Hwf. unfold ForEachEntry, uio.ForEachLink.
  assert (∀ (ls : list (string * Node)) e d1 w1 a1,
            wf d1 →
            wf (fold_left
                  (λ acc l, match acc with
                            | (Some _, _) => acc
                            | (None, s) => forEachEntryStep f l s
                            end) ls (e, (d1, w1, a1))).2.1.1) as Hfold.
  { induction ls as [|l ls IH]; intros e d1 w1 a1 Hw; [exact Hw|].
    cbn [fold_left]. destruct e as [e|]; [by apply IH|].
    pose proof (forEachEntryStep_wf f l d1 w1 a1 Hw) as Hs.
    destruct (forEachEntryStep f l (d1, w1, a1)) as [e' [[d2 w2] a2]].
    cbn [fst snd] in Hs. by apply IH. }
  destruct (ctxErr c) as [e|]; [exact Hwf|].
  specialize (Hfold (uio.Links (unixfsDir d)) None d
                (emit (EvLock (name d)) w) a Hwf).
  destruct (fold_left _ _ _) as [e [[d2 w2] a2]]. exact Hfold.
Qed.

Lemma setNodeData_wf data lks d p w :
  wf d →
  (∀ k, is_Some (uio.links (unixfsDir d) !! k) → is_Some (lks !! k)) →
  wf (setNodeData data lks d p w).1.1.2.
Proof.
  intros Hwf Hl. unfold setNodeData, SetLinks, NodeWithData.
  destruct (DAGService_Add _ _ _) as [e1 w1].
  destruct e1 as [e1|]; [exact Hwf|].
  destruct (updateChildEntry _ p _) as [[e2 p2] w2].
  destruct e2 as [e2|]; [exact Hwf|].
  destruct (uio.NewDirectoryFromNode _) as [db|e3] eqn:Hdb; [|exact Hwf].
  cbn [fst snd]. destruct (wf_inv d Hwf) as [H1 H2].
  assert (uio.links db = lks) as Hlinks.
  { revert Hdb. unfold uio.NewDirectoryFromNode.
    destruct (FSNodeFromBytes data) as [fsn|e]; [|intros H; discriminate H].
    destruct (ft.Type_ fsn); intros H; try discriminate H;
      by injection H as <-. }
  constructor; simpl.
  - intros k e Hk. destruct (H1 k e Hk) as [Hn Hlk]. split; [exact Hn|].
    rewrite Hlinks. by apply Hl.
  - exact H2.
Qed.

Lemma localUpdate_wf c d w : wf d → wf (localUpdate c d w).1.2.
Proof.
  intros Hwf. destruct d as [n cx u cache].
  unfold localUpdate, uio.AddChild, DAGService_Add. simpl.
  destruct cx; simpl.
  - apply (wf_links (<[Name c:=Node_ c]> (uio.links u))
             (mkDirectory n Background u cache) Hwf).
    intros k. apply is_Some_insert.
  - by destruct u.
Qed.

Lemma wf_backing (u : uio.Directory) d :
  wf d →
  (∀ k, is_Some (uio.links (unixfsDir d) !! k) → is_Some (uio.links u !! k)) →
  wf (set_unixfsDir u d).
Proof.
  intros Hwf Hl. destruct (wf_inv d Hwf) as [H1 H2].
  constructor; simpl.
  - intros k e Hk. destruct (H1 k e Hk). split; [done|]. by apply Hl.
  - intros k c Hk. exact (H2 k c Hk).
Qed.

Lemma updateChildEntry_wf p : ∀ c w,
  wfParent p → wfParent (updateChildEntry c p w).1.2.
Proof.
  induction p as [r|d up IH]; intros c w; simpl.
  - unfold Root_updateChildEntry. by destruct (String.eqb _ _).
  - intros [Hd Hup]. pose proof (localUpdate_wf c d w Hd) as Hl.
    destruct (localUpdate c d w) as [[res d1] w1]. simpl in Hl.
    destruct res as [nd|e]; [|by split].
    specialize (IH (mkchild (name d1) nd) (emit (EvParentCall (name d1)) w1)
                  Hup).
    destruct (updateChildEntry _ up _) as [[e up'] w2]. by split.
Qed.

Lemma Flush_wf d p w :
  wf d → wfParent p → wf (Flush d p w).1.1.2 ∧ wfParent (Flush d p w).1.2.
Proof.
  intros Hd Hp. unfold Flush. pose proof (getNode_wf d Hd true w) as Hg.
  destruct (getNode true d w) as [[res d1] w1]. simpl in Hg.
  destruct res as [nd|e]; [|by split].
  pose proof (updateChildEntry_wf p (mkchild (name d1) nd)
                (emit (EvParentCall (name d1)) w1) Hp) as Hu.
  destruct (updateChildEntry _ p _) as [[e p'] w2]. by split.
Qed.

Lemma setNodeData_wfParent data lks d p w :
  wfParent p → wfParent (setNodeData data lks d p w).1.2.
Proof.
  intros Hp. unfold setNodeData.
  destruct (DAGService_Add _ _ _) as [e1 w1].
  destruct e1 as [e1|]; [exact Hp|].
  pose proof (updateChildEntry_wf p
                (mkchild (name d) (SetLinks lks (NodeWithData data)))
                (emit (EvParentCall (name d)) w1) Hp) as Hu.
  destruct (updateChildEntry _ p _) as [[e2 p2] w2]. simpl in Hu.
  destruct e2 as [e2|]; [exact Hu|].
  by destruct (uio.NewDirectoryFromNode _).
Qed.

Lemma SetStat_links md mt u : uio.links (uio.SetStat md mt u) = uio.links u.
Proof. done. Qed.

Lemma SetMode_wf md d p w :
  wf d → wfParent p →
  wf (SetMode md d p w).1.1.2 ∧ wfParent (SetMode md d p w).1.2.
Proof.
  intros Hd Hp. unfold SetMode, GetNode.
  pose proof (getNode_wf d Hd false w) as Hg.
  destruct (getNode false d w) as [[r d1] w1] eqn:Hget. simpl in Hg.
  destruct r as [nd|e]; [|by split].
  rewrite (getNode_ok_node _ _ _ _ _ _ Hget). simpl.
  match goal with
  | |- context [setNodeData ?x ?y d1 p w1] =>
      pose proof (setNodeData_wf x y d1 p w1 Hg (λ k H, H)) as Hs;
      pose proof (setNodeData_wfParent x y d1 p w1 Hp) as Hsp;
      destruct (setNodeData x y d1 p w1) as [[[e d2] p2] w2]
  end.
  simpl in Hs, Hsp. destruct e as [e|]; [by split|]. simpl.
  split; [|exact Hsp]. by apply wf_backing.
Qed.

Lemma SetModTime_wf ts d p w :
  wf d → wfParent p →
  wf (SetModTime ts d p w).1.1.2 ∧ wfParent (SetModTime ts d p w).1.2.
Proof.
  intros Hd Hp. unfold SetModTime, GetNode.
  pose proof (getNode_wf d Hd false w) as Hg.
  destruct (getNode false d w) as [[r d1] w1] eqn:Hget. simpl in Hg.
  destruct r as [nd|e]; [|by split].
  rewrite (getNode_ok_node _ _ _ _ _ _ Hget). simpl.
  match goal with
  | |- context [setNodeData ?x ?y d1 p w1] =>
      pose proof (setNodeData_wf x y d1 p w1 Hg (λ k H, H)) as Hs;
      pose proof (setNodeData_wfParent x y d1 p w1 Hp) as Hsp;
      destruct (setNodeData x y d1 p w1) as [[[e d2] p2] w2]
  end.
  simpl in Hs, Hsp. destruct e as [e|]; [by split|]. simpl.
  split; [|exact Hsp]. by apply wf_backing.
Qed.

(** X15: the invariant of the cache.  A directory created by
    [NewDirectory] is well formed, and every operation takes well-formed
    directories to well-formed directories: each cached overlay carries
    the name it is cached under, that name is linked in the backing
    directory, and a cached directory has the context of the directory
    that caches it.  So the overlay a lookup returns has the name that was
    looked up, and the directory [MkdirWithOpts] returns has the name and
    the context asked for. *)
Theorem cache_invariant (d : Directory) (p : Parent) (w : World) :
  wf d → wfParent p →
  (∀ nm, wf (Child nm d w).1.2) ∧
  (∀ nm e, (Child nm d w).1.1 = Ok e → FSNode_name e = nm) ∧
  (∀ nm, wf (Uncache nm d w).1) ∧
  (∀ nm, wf (Unlink nm d w).1.2) ∧
  (∀ nm nd, wf (AddChild nm nd d w).1.2) ∧
  (∀ nm opts,
     wf (MkdirWithOpts nm opts d w).1.2 ∧
     ∀ c, (MkdirWithOpts nm opts d w).1.1.1 = Some c →
          name c = nm ∧ ctx c = ctx d ∧ wf c) ∧
  (∀ clean, wf (getNode clean d w).1.2) ∧
  (∀ A c (f : NodeListing → A → option error * A) a,
     wf (ForEachEntry c f d w a).1.1.2) ∧
  (wf (Flush d p w).1.1.2 ∧ wfParent (Flush d p w).1.2) ∧
  (∀ c, wfParent (updateChildEntry c p w).1.2) ∧
  (∀ md, wf (SetMode md d p w).1.1.2 ∧ wfParent (SetMode md d p w).1.2) ∧
  (∀ ts, wf (SetModTime ts d p w).1.1.2 ∧
         wfParent (SetModTime ts d p w).1.2) ∧
  (∀ c nm nd d0, NewDirectory c nm nd = Ok d0 → wf d0).
Proof.
  intros Hd Hp.
  split; [intros nm; rewrite Child_eq; by apply childUnsync_wf|].
  split.
  { intros nm e. rewrite Child_eq. cbn [fst snd]. intros He.
    pose proof (childUnsync_wf nm d Hd) as Hw.
    destruct (childUnsync nm d) as [r d1] eqn:Hc. simpl in He, Hw.
    subst r. destruct (childUnsync_ok_cached _ _ _ _ Hc) as (Hk & _).
    destruct (wf_inv _ Hw) as [H1 _]. by destruct (H1 nm e Hk). }
  split; [intros nm; by apply wf_uncached|].
  split; [intros nm; by apply Unlink_wf|].
  split; [intros nm nd; by apply AddChild_wf|].
  split; [intros nm opts; by apply MkdirWithOpts_wf|].
  split; [intros clean; by apply getNode_wf|].
  split; [intros A c f a; by apply ForEachEntry_wf|].
  split; [by apply Flush_wf|].
  split; [intros c; by apply updateChildEntry_wf|].
  split; [intros md; by apply SetMode_wf|].
  split; [intros ts; by apply SetModTime_wf|].
  intros c nm nd d0. unfold NewDirectory.
  destruct (uio.NewDirectoryFromNode nd) as [db|e]; [|intros H; discriminate H].
  intros H. injection H as <-. by apply wf_empty.
Qed.

Lemma cache_invariant_witness :
  wf linkedTop ∧ wfParent topRoot ∧
  wf (Child "a" linkedTop w0).1.2 ∧
  ∀ e, (Child "a" linkedTop w0).1.1 = Ok e → FSNode_name e = "a".
Proof.
  assert (wf linkedTop) as Hw by (by apply wf_empty).
  destruct (cache_invariant linkedTop topRoot w0 Hw I) as (H1 & H2 & _).
  split; [exact Hw|]. split; [exact I|]. split; [exact (H1 "a")|].
  exact (H2 "a").
Defined.

